(** * Kinvey.Store.Cached: the policy-driven read/write orchestrator

    A shallow embedding of [src/store/Cached.js].  The cached store sits
    between the application and two backends, the local database
    ([this.db]) and the network store ([this.store]); a cache policy
    decides which one is asked first, whether the other one is asked as
    well, and when the local database is refreshed.

    The embedding keeps the shape of the source: JavaScript data is a
    small [value] type, the [options] objects live in a heap and are
    mutated in place, the closures the source installs in them are the
    constructors of [fn], and the asynchronous backends are pending
    tasks that the environment settles one at a time. *)

From Stdlib Require Import String List ZArith Bool Arith Lia.
Import ListNotations.
Local Open Scope string_scope.

(** ** JavaScript data *)

(** Arguments, responses, errors, store sub-options and the policy slot
    are plain data. *)
#[local] Set Warnings "-register-all".
Inductive value : Type :=
| VUndefined
| VNull
| VBool (b : bool)
| VNum (n : Z)
| VStr (s : string)
| VObj (fields : list (string * value)).
#[local] Set Warnings "register-all".

(** [ToBoolean]. *)
Definition truthy (v : value) : bool :=
  match v with
  | VUndefined | VNull => false
  | VBool b => b
  | VNum n => negb (Z.eqb n 0)
  | VStr s => negb (String.eqb s "")
  | VObj _ => true
  end.

(** [null != v]: false exactly on [null] and [undefined]. *)
Definition not_nullish (v : value) : bool :=
  match v with
  | VUndefined | VNull => false
  | _ => true
  end.

Fixpoint assoc {A : Type} (k : string) (l : list (string * A)) : option A :=
  match l with
  | [] => None
  | (k', a) :: l' => if String.eqb k' k then Some a else assoc k l'
  end.

(** [v[k]] on a value that is not nullish. *)
Definition prop (v : value) (k : string) : value :=
  match v with
  | VObj fields => match assoc k fields with Some x => x | None => VUndefined end
  | _ => VUndefined
  end.

(** [v === s] for a string constant [s]. *)
Definition strict_eq_str (v : value) (s : string) : bool :=
  match v with
  | VStr t => String.eqb s t
  | _ => false
  end.

(** [accepted.indexOf(v)] for an array of string constants. *)
Fixpoint indexOf_from (accepted : list string) (v : value) (i : Z) : Z :=
  match accepted with
  | [] => (-1)%Z
  | s :: rest => if strict_eq_str v s then i else indexOf_from rest v (i + 1)%Z
  end.

Definition indexOf (accepted : list string) (v : value) : Z :=
  indexOf_from accepted v 0%Z.

(** ** Cache policies (Cached.js:357-391) *)

Definition NO_CACHE : string := "nocache".
Definition CACHE_ONLY : string := "cacheonly".
Definition CACHE_FIRST : string := "cachefirst".
Definition NETWORK_FIRST : string := "networkfirst".
Definition BOTH : string := "both".

(** ** Policy resolver (Cached.js:248-298) *)

Definition _shouldCallBoth (policy : value) : bool :=
  let accepted := [CACHE_FIRST; BOTH] in
  negb (Z.eqb (-1) (indexOf accepted policy)).

Definition _shouldCallBothCallbacks (policy : value) : bool :=
  strict_eq_str policy BOTH.

Definition _shouldCallFallback (policy : value) : bool :=
  let accepted := [NETWORK_FIRST] in
  _shouldCallBoth policy || negb (Z.eqb (-1) (indexOf accepted policy)).

Definition _shouldCallNetworkFirst (policy : value) : bool :=
  let accepted := [NO_CACHE; NETWORK_FIRST] in
  negb (Z.eqb (-1) (indexOf accepted policy)).

Definition _shouldUpdateCache (policy : value) : bool :=
  let accepted := [CACHE_FIRST; NETWORK_FIRST; BOTH] in
  negb (Z.eqb (-1) (indexOf accepted policy)).

(** ** Functions and objects *)

(** Application-level functions are opaque: calling one is an observable
    event.  [Noop] is the [function() { }] of the default options
    (Cached.js:13-15). *)
Inductive callback : Type :=
| Noop
| App (id : nat).

(** The second argument of the success and error handlers; [network]
    tells whether the response came from the network. *)
Record info : Type := { network : bool }.

Definition ref : Type := nat.   (* address of an options object *)
Definition cell : Type := nat.  (* address of an [invoked] variable *)

(** What can sit in the [success] and [error] slots of an options
    object: a function of the application, or one of the closures the
    cached store creates.  Each closure carries what it captures; the
    options object is captured by reference. *)
#[local] Set Warnings "-register-all".
Inductive fn : Type :=
| Caller (c : callback)
| ReadSuccess (invoked : cell) (options : ref) (operation : string)
    (arg : value) (fnSuccess : option fn)                  (* Cached.js:189 *)
| ResetError (options : ref)                               (* Cached.js:217 *)
| FallbackError (options : ref) (fnError : option fn)      (* Cached.js:227 *)
| WriteSuccess (options : ref) (operation : string)
    (arg : value) (fnSuccess : option fn)                  (* Cached.js:313 *)
| WriteError (options : ref) (fnError : option fn).        (* Cached.js:345 *)
#[local] Set Warnings "register-all".

(** An options object.  A missing property is [VUndefined] or [None].
    The [complete] slot is never reassigned by the cached store, so it
    only ever holds a function of the application. *)
Record object : Type := {
  policy : value;
  store : value;
  success : option fn;
  error : option fn;
  complete : option callback
}.

Definition set_policy (v : value) (o : object) : object :=
  {| policy := v; store := store o; success := success o;
     error := error o; complete := complete o |}.
Definition set_store (v : value) (o : object) : object :=
  {| policy := policy o; store := v; success := success o;
     error := error o; complete := complete o |}.
Definition set_success (f : option fn) (o : object) : object :=
  {| policy := policy o; store := store o; success := f;
     error := error o; complete := complete o |}.
Definition set_error (f : option fn) (o : object) : object :=
  {| policy := policy o; store := store o; success := success o;
     error := f; complete := complete o |}.
Definition set_complete (c : option callback) (o : object) : object :=
  {| policy := policy o; store := store o; success := success o;
     error := error o; complete := c |}.

(** The object literal [{ }]. *)
Definition empty_object : object :=
  {| policy := VUndefined; store := VUndefined; success := None;
     error := None; complete := None |}.

(** ** Backends, pending calls and the observable trace *)

Inductive backend : Type :=
| Local    (* this.db *)
| Remote.  (* this.store *)

(** The options a store operation was handed, which decide the handlers
    that run when it settles. *)
Inductive receiver : Type :=
| Merged (options : ref) (operation : string) (arg : value)
    (secondaryStore : backend)
| Shared (options : ref).

Inductive task : Type :=
| Pending_call (st : backend) (r : receiver)
| Pending_put (options : ref).

Inductive outcome : Type :=
| Succeeded (response : value) (i : info)
| Failed (err : value) (i : info).

Inductive event : Type :=
| Configure (sub : value)                                 (* this.store.configure(sub) *)
| Request (st : backend) (operation : string) (arg : value)
| Put (operation : string) (key : value) (v : value)      (* this.db.put(operation, key, v, ..) *)
| Success (c : callback) (response : value) (i : info)
| Error (c : callback) (err : value) (i : info)
| Complete (c : callback).

(** ** Machine state *)

Record instance : Type := {
  collection : value;   (* this.collection *)
  options : object      (* this.options *)
}.

Record state : Type := {
  this : instance;
  heap : list object;
  cells : list bool;
  pending : list task;
  trace : list event
}.

Inductive failure : Type :=
| TypeError   (* a missing callback was called *)
| Dangling    (* an address outside the heap *)
| NoTask.     (* no such pending call *)

Inductive result (A : Type) : Type :=
| Ok (a : A)
| Fail (e : failure).
Arguments Ok {A} a.
Arguments Fail {A} e.

Definition M (A : Type) : Type := state -> result (A * state).

Definition ret {A : Type} (a : A) : M A := fun s => Ok (a, s).

Definition bind {A B : Type} (m : M A) (k : A -> M B) : M B :=
  fun s => match m s with
           | Ok (a, s') => k a s'
           | Fail e => Fail e
           end.

Definition throw {A : Type} (e : failure) : M A := fun _ => Fail e.

Declare Scope machine_scope.
Delimit Scope machine_scope with machine.
Bind Scope machine_scope with M.
Notation "x <- m ;; k" := (bind m (fun x => k))
  (at level 61, m at next level, right associativity) : machine_scope.
Notation "m ;; k" := (bind m (fun _ => k))
  (at level 61, right associativity) : machine_scope.
Local Open Scope machine_scope.

Definition get : M state := fun s => Ok (s, s).

Fixpoint replace {A : Type} (n : nat) (a : A) (l : list A) : list A :=
  match l, n with
  | [], _ => []
  | _ :: l', O => a :: l'
  | x :: l', S n' => x :: replace n' a l'
  end.

Fixpoint remove_nth {A : Type} (n : nat) (l : list A) : list A :=
  match l, n with
  | [], _ => []
  | _ :: l', O => l'
  | x :: l', S n' => x :: remove_nth n' l'
  end.

Definition alloc (o : object) : M ref :=
  fun s => Ok (length (heap s),
               {| this := this s; heap := heap s ++ [o]; cells := cells s;
                  pending := pending s; trace := trace s |}).

Definition read (r : ref) : M object :=
  fun s => match nth_error (heap s) r with
           | Some o => Ok (o, s)
           | None => Fail Dangling
           end.

Definition update (r : ref) (f : object -> object) : M unit :=
  fun s => match nth_error (heap s) r with
           | Some o =>
               Ok (tt, {| this := this s; heap := replace r (f o) (heap s);
                          cells := cells s; pending := pending s;
                          trace := trace s |})
           | None => Fail Dangling
           end.

Definition new_cell (b : bool) : M cell :=
  fun s => Ok (length (cells s),
               {| this := this s; heap := heap s; cells := cells s ++ [b];
                  pending := pending s; trace := trace s |}).

Definition get_cell (c : cell) : M bool :=
  fun s => match nth_error (cells s) c with
           | Some b => Ok (b, s)
           | None => Fail Dangling
           end.

Definition set_cell (c : cell) (b : bool) : M unit :=
  fun s => Ok (tt, {| this := this s; heap := heap s;
                      cells := replace c b (cells s);
                      pending := pending s; trace := trace s |}).

Definition emit (e : event) : M unit :=
  fun s => Ok (tt, {| this := this s; heap := heap s; cells := cells s;
                      pending := pending s; trace := trace s ++ [e] |}).

Definition spawn (t : task) : M unit :=
  fun s => Ok (tt, {| this := this s; heap := heap s; cells := cells s;
                      pending := pending s ++ [t]; trace := trace s |}).

Definition take (n : nat) : M task :=
  fun s => match nth_error (pending s) n with
           | Some t =>
               Ok (t, {| this := this s; heap := heap s; cells := cells s;
                         pending := remove_nth n (pending s);
                         trace := trace s |})
           | None => Fail NoTask
           end.

Definition set_this (i : instance) : M unit :=
  fun s => Ok (tt, {| this := i; heap := heap s; cells := cells s;
                      pending := pending s; trace := trace s |}).

(** ** Calling into the backends *)

(** [store[operation](arg, r)]: the request is issued and settles later. *)
Definition call_store (st : backend) (operation : string) (arg : value)
    (r : receiver) : M unit :=
  emit (Request st operation arg) ;;
  spawn (Pending_call st r).

(** [this.db.put(operation, key, v, { success: fn, error: fn })] where
    both [fn] are [function() { options.complete(); }]
    (Cached.js:200-201 and 335-339). *)
Definition db_put (operation : string) (key v : value) (options : ref)
    : M unit :=
  emit (Put operation key v) ;;
  spawn (Pending_put options).

(** [options.complete()]. *)
Definition call_complete (options : ref) : M unit :=
  o <- read options ;;
  match complete o with
  | Some c => emit (Complete c)
  | None => throw TypeError
  end.

(** ** The closures of [_read] and [_write] *)

Inductive role : Type := OnSuccess | OnError.

Definition notify (r : role) (c : callback) (payload : value) (i : info)
    : M unit :=
  match r with
  | OnSuccess => emit (Success c payload i)
  | OnError => emit (Error c payload i)
  end.

(** [f(payload, i)], where [r] is the slot the call site took [f] from;
    it only labels the event when [f] is a function of the application. *)
Fixpoint invoke (r : role) (f : fn) (payload : value) (i : info)
    {struct f} : M unit :=
  match f with
  | Caller c => notify r c payload i

  (* Cached.js:189-208 *)
  | ReadSuccess invoked options operation arg fnSuccess =>
      b <- get_cell invoked ;;
      let secondPass := b in
      o <- read options ;;
      (if negb b || _shouldCallBothCallbacks (policy o) then
         set_cell invoked true ;;
         match fnSuccess with
         | Some g => invoke OnSuccess g payload i
         | None => throw TypeError
         end
       else ret tt) ;;
      o <- read options ;;
      if network i && _shouldUpdateCache (policy o) then
        db_put operation arg payload options
      else if secondPass || negb (_shouldCallBoth (policy o)) then
        call_complete options
      else ret tt

  (* Cached.js:217-219 *)
  | ResetError options => call_complete options

  (* Cached.js:227-230 *)
  | FallbackError options fnError =>
      match fnError with
      | Some g => invoke OnError g payload i
      | None => throw TypeError
      end ;;
      call_complete options

  (* Cached.js:313-344 *)
  | WriteSuccess options operation arg fnSuccess =>
      match fnSuccess with
      | Some g => invoke OnSuccess g payload i
      | None => throw TypeError
      end ;;
      o <- read options ;;
      if _shouldUpdateCache (policy o) then
        let cacheHandle :=
          [("remove", ("query", arg, VNull));
           ("removeWithQuery", ("queryWithQuery", arg, VNull))] in
        s <- get ;;
        let cacheHandle :=
          if negb (strict_eq_str (collection (this s)) "user")
             && not_nullish payload
          then (cacheHandle ++ [("save", ("query", prop payload "_id", payload))])%list
          else cacheHandle in
        match assoc operation cacheHandle with
        | Some (op, key, v) => db_put op key v options
        | None => call_complete options
        end
      else call_complete options

  (* Cached.js:345-349 *)
  | WriteError options fnError =>
      match fnError with
      | Some g => invoke OnError g payload i
      | None => throw TypeError
      end ;;
      call_complete options
  end.

(** [slot(payload, i)] for a slot that may be empty. *)
Definition call (r : role) (slot : option fn) (payload : value) (i : info)
    : M unit :=
  match slot with
  | Some f => invoke r f payload i
  | None => throw TypeError
  end.

(** ** The cached store (Cached.js:26-169) *)

(** The prototype's [options] (Cached.js:9-16). *)
Definition default_options : object :=
  {| policy := VNull; store := VObj [];
     success := Some (Caller Noop); error := Some (Caller Noop);
     complete := Some Noop |}.

Definition set_options (o : object) : M unit :=
  s <- get ;;
  set_this {| collection := collection (this s); options := o |}.

(** Cached.js:61-70 *)
Definition configure (opts : ref) : M unit :=
  o <- read opts ;;
  s <- get ;;
  (if truthy (policy o)
   then set_options (set_policy (policy o) (options (this s))) else ret tt) ;;
  s <- get ;;
  (if truthy (store o)
   then set_options (set_store (store o) (options (this s))) else ret tt) ;;
  s <- get ;;
  (match success o with
   | Some f => set_options (set_success (Some f) (options (this s)))
   | None => ret tt
   end) ;;
  s <- get ;;
  (match error o with
   | Some f => set_options (set_error (Some f) (options (this s)))
   | None => ret tt
   end) ;;
  s <- get ;;
  (match complete o with
   | Some c => set_options (set_complete (Some c) (options (this s)))
   | None => ret tt
   end).

(** Cached.js:26-36 *)
Definition constructor (coll : value) (opts : option ref) : M unit :=
  s <- get ;;
  set_this {| collection := coll; options := options (this s) |} ;;
  s <- get ;;
  set_options (set_policy (VStr NETWORK_FIRST) (options (this s))) ;;
  match opts with
  | Some o => configure o
  | None => ret tt
  end.

(** Cached.js:156-169 *)
Definition _options (opts : option ref) : M ref :=
  opts <- match opts with
          | Some o => ret o
          | None => alloc empty_object
          end ;;
  o <- read opts ;;
  s <- get ;;
  (if truthy (policy o) then ret tt
   else update opts (set_policy (policy (options (this s))))) ;;
  o <- read opts ;;
  emit (Configure (if truthy (store o) then store o
                   else store (options (this s)))) ;;
  (match success o with
   | Some _ => ret tt
   | None => update opts (set_success (success (options (this s))))
   end) ;;
  o <- read opts ;;
  (match error o with
   | Some _ => ret tt
   | None => update opts (set_error (error (options (this s))))
   end) ;;
  o <- read opts ;;
  (match complete o with
   | Some _ => ret tt
   | None => update opts (set_complete (complete (options (this s))))
   end) ;;
  ret opts.

(** ** Read orchestration (Cached.js:180-239) *)

(** [merge] is not part of the source at hand.  Modelled from the spec:
    the primary backend is invoked "with the operation name, argument,
    and a success/error pair wired as below" (section 4.4, transition 1),
    so [merge(options, { success, error })] builds a new object for the
    primary store and leaves [options] itself untouched.  [Merged]
    stands for that object: its handlers are the two closures of
    Cached.js:212 and 223, below. *)
Definition _read (operation : string) (arg : value) (opts : ref) : M unit :=
  o <- read opts ;;
  let networkFirst := _shouldCallNetworkFirst (policy o) in
  let primaryStore := if networkFirst then Remote else Local in
  let secondaryStore := if networkFirst then Local else Remote in
  invoked <- new_cell false ;;
  o <- read opts ;;
  let fnSuccess := success o in
  update opts
    (set_success (Some (ReadSuccess invoked opts operation arg fnSuccess))) ;;
  call_store primaryStore operation arg
    (Merged opts operation arg secondaryStore).

(** The success handler given to the primary store (Cached.js:212-222). *)
Definition primary_success (opts : ref) (operation : string) (arg : value)
    (secondaryStore : backend) (response : value) (i : info) : M unit :=
  o <- read opts ;;
  call OnSuccess (success o) response i ;;
  o <- read opts ;;
  if _shouldCallBoth (policy o) then
    update opts (set_error (Some (ResetError opts))) ;;
    call_store secondaryStore operation arg (Shared opts)
  else ret tt.

(** The error handler given to the primary store (Cached.js:223-237). *)
Definition primary_error (opts : ref) (operation : string) (arg : value)
    (secondaryStore : backend) (err : value) (i : info) : M unit :=
  o <- read opts ;;
  if _shouldCallFallback (policy o) then
    let fnError := error o in
    update opts (set_error (Some (FallbackError opts fnError))) ;;
    call_store secondaryStore operation arg (Shared opts)
  else
    o <- read opts ;;
    call OnError (error o) err i ;;
    call_complete opts.

(** ** Write orchestration (Cached.js:309-353) *)

Definition _write (operation : string) (arg : value) (opts : ref) : M unit :=
  o <- read opts ;;
  let fnError := error o in
  let fnSuccess := success o in
  update opts (set_success (Some (WriteSuccess opts operation arg fnSuccess))) ;;
  update opts (set_error (Some (WriteError opts fnError))) ;;
  call_store Remote operation arg (Shared opts).

(** ** The public operations (Cached.js:46-147) *)

Definition aggregate (aggregation : value) (opts : option ref) : M unit :=
  o <- _options opts ;; _read "aggregate" aggregation o.

Definition query (id : value) (opts : option ref) : M unit :=
  o <- _options opts ;; _read "query" id o.

Definition queryWithQuery (q : value) (opts : option ref) : M unit :=
  o <- _options opts ;; _read "queryWithQuery" q o.

Definition remove (obj : value) (opts : option ref) : M unit :=
  o <- _options opts ;; _write "remove" obj o.

Definition removeWithQuery (q : value) (opts : option ref) : M unit :=
  o <- _options opts ;; _write "removeWithQuery" q o.

Definition save (obj : value) (opts : option ref) : M unit :=
  o <- _options opts ;; _write "save" obj o.

(** [login] and [logout] hand the merged options to the network store
    as they are. *)

(** Cached.js:78-81 *)
Definition login (object : value) (opts : option ref) : M unit :=
  o <- _options opts ;; call_store Remote "login" object (Shared o).

(** Cached.js:89-92 *)
Definition logout (object : value) (opts : option ref) : M unit :=
  o <- _options opts ;; call_store Remote "logout" object (Shared o).

(** ** The environment: backends settling their calls *)

(** The [n]-th pending call settles with [out]; the handlers of the
    options it was handed run to completion. *)
Definition settle (n : nat) (out : outcome) : M unit :=
  t <- take n ;;
  match t with
  | Pending_call _ (Merged opts operation arg secondaryStore) =>
      match out with
      | Succeeded response i =>
          primary_success opts operation arg secondaryStore response i
      | Failed err i =>
          primary_error opts operation arg secondaryStore err i
      end
  | Pending_call _ (Shared opts) =>
      o <- read opts ;;
      match out with
      | Succeeded response i => call OnSuccess (success o) response i
      | Failed err i => call OnError (error o) err i
      end
  | Pending_put opts => call_complete opts
  end.

(** One outcome per backend, and one for the cache write. *)
Record environment : Type := {
  local : outcome;
  remote : outcome;
  cache : outcome
}.

Definition answer (env : environment) (t : task) : outcome :=
  match t with
  | Pending_call Local _ => local env
  | Pending_call Remote _ => remote env
  | Pending_put _ => cache env
  end.

(** Settle pending calls, oldest first, until none is left. *)
Fixpoint drive (fuel : nat) (env : environment) : M unit :=
  match fuel with
  | O => ret tt
  | S fuel' =>
      s <- get ;;
      match pending s with
      | [] => ret tt
      | t :: _ => settle 0 (answer env t) ;; drive fuel' env
      end
  end.

(** ** The application side *)

(** What an application writes in an options literal. *)
Record settings : Type := {
  s_policy : value;
  s_store : value;
  s_success : option callback;
  s_error : option callback;
  s_complete : option callback
}.

Definition literal (l : settings) : object :=
  {| policy := s_policy l; store := s_store l;
     success := option_map Caller (s_success l);
     error := option_map Caller (s_error l);
     complete := s_complete l |}.

(** Evaluating the optional options argument of a call. *)
Definition argument (l : option settings) : M (option ref) :=
  match l with
  | Some l => r <- alloc (literal l) ;; ret (Some r)
  | None => ret None
  end.

(** The world before any store is constructed. *)
Definition boot : state :=
  {| this := {| collection := VUndefined; options := default_options |};
     heap := []; cells := []; pending := []; trace := [] |}.

(** A world holding one cached store and nothing else. *)
Definition world (i : instance) : state :=
  {| this := i; heap := []; cells := []; pending := []; trace := [] |}.

Definition observed {A : Type} (r : result (A * state)) : result (list event) :=
  match r with
  | Ok (_, s) => Ok (trace s)
  | Fail e => Fail e
  end.

Definition quiescent {A : Type} (r : result (A * state)) : bool :=
  match r with
  | Ok (_, s) => match pending s with [] => true | _ => false end
  | Fail _ => false
  end.

Definition successes (tr : list event) : nat :=
  length (filter (fun e => match e with Success _ _ _ => true | _ => false end) tr).
Definition errors (tr : list event) : nat :=
  length (filter (fun e => match e with Error _ _ _ => true | _ => false end) tr).
Definition completions (tr : list event) : nat :=
  length (filter (fun e => match e with Complete _ => true | _ => false end) tr).
Definition puts (tr : list event) : list event :=
  filter (fun e => match e with Put _ _ _ => true | _ => false end) tr.
Definition requests (st : backend) (tr : list event) : list event :=
  filter (fun e => match e, st with
                   | Request Local _ _, Local => true
                   | Request Remote _ _, Remote => true
                   | _, _ => false
                   end) tr.

(** The logical operations of the public surface. *)
Inductive api : Type :=
| Aggregate | Query | QueryWithQuery | Save | Remove | RemoveWithQuery.

Definition perform (a : api) (arg : value) (opts : option ref) : M unit :=
  match a with
  | Aggregate => aggregate arg opts
  | Query => query arg opts
  | QueryWithQuery => queryWithQuery arg opts
  | Save => save arg opts
  | Remove => remove arg opts
  | RemoveWithQuery => removeWithQuery arg opts
  end.

Definition is_read (a : api) : bool :=
  match a with
  | Aggregate | Query | QueryWithQuery => true
  | Save | Remove | RemoveWithQuery => false
  end.

Definition succeeded (out : outcome) : bool :=
  match out with
  | Succeeded _ _ => true
  | Failed _ _ => false
  end.

Definition info_of (out : outcome) : info :=
  match out with
  | Succeeded _ i => i
  | Failed _ i => i
  end.

(** A cached store whose own options hold functions of the application. *)
Definition store_with (coll p sub : value) (s e c : callback) : instance :=
  {| collection := coll;
     options := {| policy := p; store := sub; success := Some (Caller s);
                   error := Some (Caller e); complete := Some c |} |}.

(** The policy a call runs under: the call-site one unless it is missing. *)
Definition effective_policy (i : instance) (l : option settings) : value :=
  match l with
  | Some l => if truthy (s_policy l) then s_policy l else policy (options i)
  | None => policy (options i)
  end.

(** The five enumerated policies. *)
Definition policies : list string :=
  [NO_CACHE; CACHE_ONLY; CACHE_FIRST; NETWORK_FIRST; BOTH].

Definition recognised (p : value) : bool :=
  existsb (strict_eq_str p) policies.

(** ** Runs, observations and the worlds they start from *)

(** The private routine and the operation name behind each public one. *)
Definition name (a : api) : string :=
  match a with
  | Aggregate => "aggregate"
  | Query => "query"
  | QueryWithQuery => "queryWithQuery"
  | Save => "save"
  | Remove => "remove"
  | RemoveWithQuery => "removeWithQuery"
  end.

Definition body (a : api) (arg : value) (o : ref) : M unit :=
  if is_read a then _read (name a) arg o else _write (name a) arg o.

(** The application evaluates its options literal, calls the operation,
    and the backends settle what they were asked. *)
Definition run_operation (i : instance) (l : option settings) (a : api)
    (arg : value) (env : environment) (fuel : nat) : result (unit * state) :=
  (o <- argument l ;; perform a arg o ;; drive fuel env) (world i).

(** Backends that tell the truth about where a response comes from. *)
Definition truthful (env : environment) : Prop :=
  network (info_of (local env)) = false /\
  network (info_of (remote env)) = true.

(** An options object whose slots are all filled by the application. *)
Definition filled (p sub : value) (s e c : callback) : object :=
  {| policy := p; store := sub; success := Some (Caller s);
     error := Some (Caller e); complete := Some c |}.

(** The world right after [_options] returned that object. *)
Definition prepared (i : instance) (o : object) (x : value) : state :=
  {| this := i; heap := [o]; cells := []; pending := [];
     trace := [Configure x] |}.

Definition or_default {A : Type} (a : option A) (d : A) : A :=
  match a with
  | Some a => a
  | None => d
  end.

(** Both backends answered a read under the Both policy. *)
Definition twice (i : instance) (l : option settings) (a : api)
    (env : environment) : bool :=
  is_read a && _shouldCallBothCallbacks (effective_policy i l)
  && succeeded (local env) && succeeded (remote env).

Definition from_cache : info := {| network := false |}.
Definition from_network : info := {| network := true |}.

(** A store constructed without options, still on the NetworkFirst
    default. *)
Definition plain_store (coll : value) : instance :=
  {| collection := coll;
     options := set_policy (VStr NETWORK_FIRST) default_options |}.

(** An options literal that names a policy and three callbacks. *)
Definition asking (p : string) : settings :=
  {| s_policy := VStr p; s_store := VUndefined; s_success := Some (App 1);
     s_error := Some (App 2); s_complete := Some (App 3) |}.

Definition both_answer : environment :=
  {| local := Succeeded (VStr "cached") from_cache;
     remote := Succeeded (VStr "fetched") from_network;
     cache := Succeeded VUndefined from_cache |}.

(** The pending calls settle one after the other with the given
    outcomes. *)
Fixpoint settle_each (outs : list outcome) : M unit :=
  match outs with
  | [] => ret tt
  | out :: rest => settle 0 out ;; settle_each rest
  end.

Definition scenario (i : instance) (l : option settings) (a : api)
    (arg : value) (outs : list outcome) : result (unit * state) :=
  (o <- argument l ;; perform a arg o ;; settle_each outs) (world i).

(** What [_options] hands to [this.store.configure]. *)
Definition sub_options (i : instance) (l : option settings) : value :=
  match l with
  | Some l => if truthy (s_store l) then s_store l else store (options i)
  | None => store (options i)
  end.

(** The application-level callbacks a call ends up with. *)
Definition on_success (s0 : callback) (l : option settings) : callback :=
  match l with
  | Some l => or_default (s_success l) s0
  | None => s0
  end.
Definition on_error (e0 : callback) (l : option settings) : callback :=
  match l with
  | Some l => or_default (s_error l) e0
  | None => e0
  end.
Definition on_complete (c0 : callback) (l : option settings) : callback :=
  match l with
  | Some l => or_default (s_complete l) c0
  | None => c0
  end.

(** One read, answered by the backend it asked. *)
Definition read_once (l : option settings) (a : api) (arg : value)
    (out : outcome) : M unit :=
  o <- argument l ;; perform a arg o ;; settle 0 out.

(** The same read issued again with the options object of the first. *)
Definition read_again (l : settings) (a : api) (arg : value)
    (out : outcome) : M unit :=
  o <- argument (Some l) ;;
  perform a arg o ;; settle 0 out ;;
  perform a arg o ;; settle 0 out.

Definition delivered (s e : callback) (out : outcome) : event :=
  match out with
  | Succeeded response i => Success s response i
  | Failed err i => Error e err i
  end.

(** What the source's [x || (x = d)] leaves in a slot. *)
Definition policy_or (v d : value) : value := if truthy v then v else d.
Definition slot_or {A : Type} (f d : option A) : option A :=
  match f with
  | Some _ => f
  | None => d
  end.

(** The options argument as [_options] finds it: the object passed, or
    a new empty one when none was. *)
Definition call_site (s : state) (opts : option ref) : option object :=
  match opts with
  | Some r => nth_error (heap s) r
  | None => Some empty_object
  end.

(** The store's own options are complete: a truthy policy and the three
    callbacks. *)
Definition configured (o : object) : Prop :=
  truthy (policy o) = true /\ success o <> None /\ error o <> None /\
  complete o <> None.

Definition listening : settings :=
  {| s_policy := VUndefined; s_store := VUndefined;
     s_success := Some (App 7); s_error := None; s_complete := None |}.

Definition typo : settings := asking "netwrokfirst".

Definition books : instance :=
  store_with (VStr "books") (VStr NETWORK_FIRST) (VObj []) Noop Noop Noop.

Definition users : instance :=
  store_with (VStr "user") (VStr NETWORK_FIRST) (VObj []) Noop Noop Noop.

Definition saved : value := VObj [("_id", VStr "b1"); ("title", VStr "Emma")].

Definition network_saves : environment :=
  {| local := Failed VUndefined from_cache;
     remote := Succeeded saved from_network;
     cache := Succeeded VUndefined from_cache |}.

(** What follows a response that may refresh the cache: the cache write
    and then completion when the response is the network's and the
    policy updates the cache, completion alone otherwise. *)
Definition maintenance (p : value) (st : backend) (nm : string)
    (arg response : value) (c : callback) : list event :=
  match st with
  | Remote => if _shouldUpdateCache p
              then [Put nm arg response; Complete c]
              else [Complete c]
  | Local => [Complete c]
  end.

Definition asked (env : environment) (st : backend) : outcome :=
  match st with
  | Local => local env
  | Remote => remote env
  end.

(** The events of a read, from its first request on. *)
Definition read_course (p : value) (nm : string) (arg : value)
    (s e c : callback) (env : environment) : list event :=
  let primary := if _shouldCallNetworkFirst p then Remote else Local in
  let secondary := if _shouldCallNetworkFirst p then Local else Remote in
  Request primary nm arg ::
  match asked env primary with
  | Succeeded r i =>
      Success s r i ::
      (if _shouldCallBoth p then
         Request secondary nm arg ::
         match asked env secondary with
         | Succeeded r' i' =>
             (if _shouldCallBothCallbacks p then [Success s r' i'] else [])
             ++ maintenance p secondary nm arg r' c
         | Failed _ _ => [Complete c]
         end
       else maintenance p primary nm arg r c)
  | Failed err i =>
      if _shouldCallFallback p then
        Request secondary nm arg ::
        match asked env secondary with
        | Succeeded r' i' => Success s r' i' :: maintenance p secondary nm arg r' c
        | Failed err' i' => [Error e err' i'; Complete c]
        end
      else [Error e err i; Complete c]
  end%list.

(** The events of a write, from its request on. *)
Definition write_course (coll p : value) (a : api) (arg : value)
    (s e c : callback) (env : environment) : list event :=
  Request Remote (name a) arg ::
  match remote env with
  | Succeeded r i =>
      Success s r i ::
      (if _shouldUpdateCache p then
         match a with
         | Remove => [Put "query" arg VNull; Complete c]
         | RemoveWithQuery => [Put "queryWithQuery" arg VNull; Complete c]
         | _ => if negb (strict_eq_str coll "user") && not_nullish r
                then [Put "query" (prop r "_id") r; Complete c]
                else [Complete c]
         end
       else [Complete c])
  | Failed err i => [Error e err i; Complete c]
  end.

Definition payload (out : outcome) : value :=
  match out with
  | Succeeded r _ => r
  | Failed err _ => err
  end.

(** The events of a whole operation, [_options] included. *)
Definition course (i : instance) (l : option settings) (a : api)
    (arg : value) (env : environment) : list event :=
  let p := effective_policy i l in
  let s :=
    on_success
      (match success (options i) with Some (Caller s0) => s0 | _ => Noop end) l in
  let e :=
    on_error
      (match error (options i) with Some (Caller e0) => e0 | _ => Noop end) l in
  let c :=
    on_complete
      (match complete (options i) with Some c0 => c0 | None => Noop end) l in
  Configure (sub_options i l) ::
  (if is_read a
   then read_course p (name a) arg s e c env
   else write_course (collection i) p a arg s e c env).

Definition slot_of (a : api) : string :=
  match a with
  | RemoveWithQuery => "queryWithQuery"
  | _ => "query"
  end.

Definition delivered_to (s e : callback) (out : outcome) : event :=
  match out with
  | Succeeded response i => Success s response i
  | Failed err i => Error e err i
  end.

Definition primary_of (p : value) : backend :=
  if _shouldCallNetworkFirst p then Remote else Local.
Definition secondary_of (p : value) : backend :=
  if _shouldCallNetworkFirst p then Local else Remote.

(** The policy lets the read go on to the second store after this
    outcome of the first. *)
Definition goes_on (p : value) (first : outcome) : bool :=
  if succeeded first then _shouldCallBoth p else _shouldCallFallback p.

Definition all_requests (tr : list event) : list event :=
  filter (fun e => match e with Request _ _ _ => true | _ => false end) tr.

(** The same read, run to the end twice through one options object. *)
Definition read_through_same_object (g : settings) (a : api) (arg : value)
    (env : environment) : M unit :=
  o <- argument (Some g) ;;
  perform a arg o ;; drive 3 env ;;
  perform a arg o ;; drive 3 env.

Definition network_down : environment :=
  {| local := Succeeded (VStr "cached") from_cache;
     remote := Failed (VStr "offline") from_network;
     cache := Succeeded VUndefined from_cache |}.

Definition all_down : environment :=
  {| local := Failed (VStr "missing") from_cache;
     remote := Failed (VStr "offline") from_network;
     cache := Succeeded VUndefined from_cache |}.

Definition network_says_nothing : environment :=
  {| local := Failed VUndefined from_cache;
     remote := Succeeded VNull from_network;
     cache := Succeeded VUndefined from_cache |}.

Definition one_object : state :=
  {| this := books; heap := [literal (asking CACHE_FIRST)]; cells := [];
     pending := []; trace := [] |}.

(** Two operations, one after the other, through one options object;
    each waits for the pending calls of its own to settle, with the
    given outcomes. *)
Definition through_one_object (g : settings) (a b : api) (arg1 arg2 : value)
    (first second : list outcome) : M unit :=
  o <- argument (Some g) ;;
  perform a arg1 o ;; settle_each first ;;
  perform b arg2 o ;; settle_each second.

Definition cached_answer : outcome := Succeeded (VStr "cached") from_cache.
Definition fetched_answer : outcome := Succeeded (VStr "fetched") from_network.
Definition cache_miss : outcome := Failed (VStr "missing") from_cache.
Definition network_failure : outcome := Failed (VStr "offline") from_network.
Definition cache_written : outcome := Succeeded VUndefined from_cache.
Definition saved_answer : outcome := Succeeded saved from_network.

(** * Properties *)

(** ** The policy resolver *)

Lemma strict_eq_str_spec (v : value) (s : string) :
  strict_eq_str v s = true <-> v = VStr s.
Proof.
  destruct v; simpl; try (split; [discriminate | intros H; discriminate H]).
  rewrite String.eqb_eq. split; [intros -> | intros [= ->]]; reflexivity.
Qed.

Lemma recognised_false (p : value) :
  recognised p = false ->
  strict_eq_str p NO_CACHE = false /\ strict_eq_str p CACHE_ONLY = false /\
  strict_eq_str p CACHE_FIRST = false /\ strict_eq_str p NETWORK_FIRST = false /\
  strict_eq_str p BOTH = false.
Proof.
  unfold recognised, policies; simpl. intros H.
  repeat (apply orb_false_elim in H; destruct H as [? H]).
  repeat split; assumption.
Qed.

Lemma classify (p : value) :
  p = VStr NO_CACHE \/ p = VStr CACHE_ONLY \/ p = VStr CACHE_FIRST \/
  p = VStr NETWORK_FIRST \/ p = VStr BOTH \/ recognised p = false.
Proof.
  destruct (strict_eq_str p NO_CACHE) eqn:E1;
    [apply strict_eq_str_spec in E1; tauto|].
  destruct (strict_eq_str p CACHE_ONLY) eqn:E2;
    [apply strict_eq_str_spec in E2; tauto|].
  destruct (strict_eq_str p CACHE_FIRST) eqn:E3;
    [apply strict_eq_str_spec in E3; tauto|].
  destruct (strict_eq_str p NETWORK_FIRST) eqn:E4;
    [apply strict_eq_str_spec in E4; tauto|].
  destruct (strict_eq_str p BOTH) eqn:E5;
    [apply strict_eq_str_spec in E5; tauto|].
  do 5 right. unfold recognised, policies; simpl.
  rewrite E1, E2, E3, E4, E5. reflexivity.
Qed.

(** Outside the five policies every predicate is false. *)
Lemma unrecognised_predicates (p : value) :
  recognised p = false ->
  _shouldCallNetworkFirst p = false /\ _shouldCallBoth p = false /\
  _shouldCallBothCallbacks p = false /\ _shouldCallFallback p = false /\
  _shouldUpdateCache p = false.
Proof.
  intros H. destruct (recognised_false p H) as (E1 & E2 & E3 & E4 & E5).
  unfold _shouldCallNetworkFirst, _shouldCallBoth, _shouldCallBothCallbacks,
    _shouldCallFallback, _shouldCallBoth, _shouldUpdateCache, indexOf; simpl.
  rewrite E1, E3, E4, E5. repeat split; reflexivity.
Qed.

(** C2.  The resolver maps the five policies to the four booleans of the
    table: network-first holds exactly for NoCache and NetworkFirst,
    both exactly for CacheFirst and Both, cache update exactly for
    CacheFirst, NetworkFirst and Both, and fallback is
    "both, or the policy is NetworkFirst", that is exactly CacheFirst,
    NetworkFirst and Both. *)
Theorem policy_resolver_table :
  map (fun p => (_shouldCallNetworkFirst (VStr p), _shouldCallBoth (VStr p),
                 _shouldCallFallback (VStr p), _shouldUpdateCache (VStr p)))
      [NO_CACHE; CACHE_ONLY; CACHE_FIRST; NETWORK_FIRST; BOTH]
  = [ (true, false, false, false);
      (false, false, false, false);
      (false, true, true, true);
      (true, false, true, true);
      (false, true, true, true) ]
  /\ (forall p, _shouldCallNetworkFirst p = true <->
                p = VStr NO_CACHE \/ p = VStr NETWORK_FIRST)
  /\ (forall p, _shouldCallBoth p = true <->
                p = VStr CACHE_FIRST \/ p = VStr BOTH)
  /\ (forall p, _shouldUpdateCache p = true <->
                p = VStr CACHE_FIRST \/ p = VStr NETWORK_FIRST \/ p = VStr BOTH)
  /\ (forall p, _shouldCallFallback p =
                _shouldCallBoth p || strict_eq_str p NETWORK_FIRST)
  /\ (forall p, _shouldCallFallback p = true <->
                p = VStr CACHE_FIRST \/ p = VStr NETWORK_FIRST \/ p = VStr BOTH).
Proof.
  split; [reflexivity|].
  assert (cases : forall (p : value) (P : Prop),
             (p = VStr NO_CACHE -> P) -> (p = VStr CACHE_ONLY -> P) ->
             (p = VStr CACHE_FIRST -> P) -> (p = VStr NETWORK_FIRST -> P) ->
             (p = VStr BOTH -> P) -> (recognised p = false -> P) -> P).
  { intros p P. destruct (classify p) as [E|[E|[E|[E|[E|E]]]]]; auto. }
  assert (distinct : forall a b : string,
             String.eqb a b = false -> VStr a = VStr b -> False).
  { intros a b E [= H]. apply String.eqb_eq in H. congruence. }
  repeat apply conj; intros p.
  - apply (cases p); intros E.
    1-5: subst p; split; [intros H; vm_compute in H; try discriminate H; tauto |].
    1-5: intros [H|H]; try reflexivity; exfalso;
         revert H; apply distinct; reflexivity.
    destruct (unrecognised_predicates p E) as (U1 & _). rewrite U1.
    split; [discriminate|]. intros [-> | ->]; discriminate E.
  - apply (cases p); intros E.
    1-5: subst p; split; [intros H; vm_compute in H; try discriminate H; tauto |].
    1-5: intros [H|H]; try reflexivity; exfalso;
         revert H; apply distinct; reflexivity.
    destruct (unrecognised_predicates p E) as (_ & U2 & _). rewrite U2.
    split; [discriminate|]. intros [-> | ->]; discriminate E.
  - apply (cases p); intros E.
    1-5: subst p; split; [intros H; vm_compute in H; try discriminate H; tauto |].
    1-5: intros [H|[H|H]]; try reflexivity; exfalso;
         revert H; apply distinct; reflexivity.
    destruct (unrecognised_predicates p E) as (_ & _ & _ & _ & U5). rewrite U5.
    split; [discriminate|]. intros [-> | [-> | ->]]; discriminate E.
  - unfold _shouldCallFallback, indexOf; simpl.
    destruct (strict_eq_str p NETWORK_FIRST); reflexivity.
  - apply (cases p); intros E.
    1-5: subst p; split; [intros H; vm_compute in H; try discriminate H; tauto |].
    1-5: intros [H|[H|H]]; try reflexivity; exfalso;
         revert H; apply distinct; reflexivity.
    destruct (unrecognised_predicates p E) as (_ & _ & _ & U4 & _). rewrite U4.
    split; [discriminate|]. intros [-> | [-> | ->]]; discriminate E.
Qed.

(** Each policy gives one of five rows of answers; a value outside the
    five policies answers like CacheOnly. *)
Lemma rows (p : value) :
  let r := (_shouldCallNetworkFirst p, _shouldCallBoth p,
            _shouldCallBothCallbacks p, _shouldCallFallback p,
            _shouldUpdateCache p) in
  r = (true, false, false, false, false) \/
  r = (false, false, false, false, false) \/
  r = (false, true, false, true, true) \/
  r = (true, false, false, true, true) \/
  r = (false, true, true, true, true).
Proof.
  destruct (classify p) as [E|[E|[E|[E|[E|E]]]]];
    try (subst p; vm_compute; tauto).
  destruct (unrecognised_predicates p E) as (U1 & U2 & U3 & U4 & U5).
  simpl. rewrite U1, U2, U3, U4, U5. tauto.
Qed.

(** ** Running one logical operation *)

Lemma drive_idle (k : nat) (env : environment) (s : state) :
  pending s = [] -> drive k env s = Ok (tt, s).
Proof.
  intros H. destruct k; simpl; [reflexivity|].
  unfold bind, get. rewrite H. reflexivity.
Qed.

Lemma drive_S (n : nat) (env : environment) (s : state) :
  drive (S n) env s =
  match pending s with
  | [] => Ok (tt, s)
  | t :: _ => match settle 0 (answer env t) s with
              | Ok (_, s') => drive n env s'
              | Fail e => Fail e
              end
  end.
Proof.
  simpl. unfold bind, get. destruct (pending s); reflexivity.
Qed.

Lemma drive_add (n k : nat) (env : environment) (s : state) :
  drive (n + k) env s = (drive n env ;; drive k env) s.
Proof.
  revert s. induction n as [|n IH]; intros s; [reflexivity|].
  change (S n + k) with (S (n + k)). unfold bind in *.
  rewrite !drive_S. destruct (pending s) as [|t ts] eqn:P.
  - symmetry. apply drive_idle, P.
  - destruct (settle 0 (answer env t) s) as [[u s']|e]; [apply IH | reflexivity].
Qed.

(** Once nothing is pending, more fuel changes nothing. *)
Lemma quiescent_fuel (m : M unit) (n k : nat) (env : environment) (s : state) :
  quiescent ((m ;; drive n env) s) = true ->
  (m ;; drive (n + k) env) s = (m ;; drive n env) s.
Proof.
  unfold bind. destruct (m s) as [[u s']|e]; [|reflexivity].
  rewrite drive_add. unfold bind.
  destruct (drive n env s') as [[u' s'']|e]; [|reflexivity].
  simpl. destruct (pending s'') eqn:P; [|discriminate].
  intros _. destruct u'. apply drive_idle, P.
Qed.

Lemma perform_body (a : api) (arg : value) (opts : option ref) :
  perform a arg opts = (o <- _options opts ;; body a arg o).
Proof. destruct a; reflexivity. Qed.

Lemma issue_staged (i : instance) (l : option settings) (a : api)
    (arg : value) (m : M unit) :
  (o <- argument l ;; perform a arg o ;; m) (world i) =
  match (o <- argument l ;; _options o) (world i) with
  | Ok (o, s) => (body a arg o ;; m) s
  | Fail e => Fail e
  end.
Proof.
  unfold bind at 1 3. destruct (argument l (world i)) as [[o s]|e]; [|reflexivity].
  rewrite perform_body. unfold bind.
  destruct (_options o s) as [[o' s']|e]; reflexivity.
Qed.

Lemma options_stage (coll p0 sub0 : value) (s0 e0 c0 : callback)
    (l : option settings) :
  let i := store_with coll p0 sub0 s0 e0 c0 in
  let lit := match l with
             | Some l => l
             | None => {| s_policy := VUndefined; s_store := VUndefined;
                          s_success := None; s_error := None;
                          s_complete := None |}
             end in
  (o <- argument l ;; _options o) (world i) =
  Ok (0, prepared i
           (filled (effective_policy i l) (s_store lit)
                   (or_default (s_success lit) s0)
                   (or_default (s_error lit) e0)
                   (or_default (s_complete lit) c0))
           (if truthy (s_store lit) then s_store lit else sub0)).
Proof.
  destruct l as [[p sub s e c]|]; simpl.
  - destruct s, e, c; cbv -[truthy]; destruct (truthy p); reflexivity.
  - reflexivity.
Qed.

(** ** Counting what reaches the caller *)

Ltac with_rows p :=
  let U1 := fresh "U" in let U2 := fresh "U" in let U3 := fresh "U" in
  let U4 := fresh "U" in let U5 := fresh "U" in
  destruct (rows p) as [U1|[U1|[U1|[U1|U1]]]];
  injection U1 as U1 U2 U3 U4 U5.

Ltac outcomes env :=
  let lo := fresh "lo" in let re := fresh "re" in let ca := fresh "ca" in
  let Hl := fresh "Hl" in let Hr := fresh "Hr" in
  destruct env as [lo re ca]; intros [Hl Hr]; simpl in Hl, Hr;
  destruct lo as [? [?]|? [?]]; simpl in Hl; subst;
  destruct re as [? [?]|? [?]]; simpl in Hr; subst.

(** Run the machine as far as it goes, keeping the tests on data folded
    so that what is known about them can be rewritten. *)
Ltac crunch :=
  cbv -[_shouldCallNetworkFirst _shouldCallBoth _shouldCallBothCallbacks
        _shouldCallFallback _shouldUpdateCache truthy strict_eq_str
        not_nullish prop].

Ltac settle_all :=
  crunch;
  repeat (progress
            (repeat match goal with
                    | U : _ = _ |- _ => rewrite U
                    end);
          crunch).

Lemma read_counts (i : instance) (p sub : value) (s e c : callback)
    (x : value) (operation : string) (arg : value) (env : environment) :
  truthful env ->
  let r := (_read operation arg 0 ;; drive 3 env)
             (prepared i (filled p sub s e c) x) in
  exists tr,
    observed r = Ok tr /\ quiescent r = true /\ completions tr = 1 /\
    if _shouldCallBothCallbacks p && succeeded (local env)
       && succeeded (remote env)
    then successes tr = 2 /\ errors tr = 0
    else successes tr + errors tr = 1.
Proof.
  outcomes env.
  all: with_rows p.
  all: settle_all.
  all: eexists; repeat split; reflexivity.
Qed.

Lemma write_counts (coll : value) (io : object) (p sub : value)
    (s e c : callback) (x : value) (operation : string) (arg : value)
    (env : environment) :
  truthful env ->
  In operation ["save"; "remove"; "removeWithQuery"] ->
  let r := (_write operation arg 0 ;; drive 3 env)
             (prepared {| collection := coll; options := io |}
                       (filled p sub s e c) x) in
  exists tr,
    observed r = Ok tr /\ quiescent r = true /\ completions tr = 1 /\
    successes tr + errors tr = 1.
Proof.
  outcomes env.
  all: intros [<-|[<-|[<-|[]]]].
  all: with_rows p.
  all: settle_all.
  all: try (eexists; repeat split; reflexivity).
  all: destruct (strict_eq_str coll "user").
  all: settle_all.
  all: try (eexists; repeat split; reflexivity).
  all: match goal with
       | |- context [not_nullish ?v] => destruct (not_nullish v)
       end.
  all: settle_all.
  all: eexists; repeat split; reflexivity.
Qed.

(** C1, as amended.  Every logical operation that is called with an
    options object of its own (or with none), on a store whose own
    callbacks are the application's, runs to quiescence with exactly one
    completion, under every policy value and every combination of
    outcomes of backends that are truthful about provenance.  It
    delivers exactly one notification through success or error, never
    both, except for a read under Both whose local and network calls
    both succeed: that read delivers two successes and no error. *)
Theorem one_completion_per_operation
    (coll p0 sub0 : value) (s0 e0 c0 : callback) (l : option settings)
    (a : api) (arg : value) (env : environment) (k : nat) :
  truthful env ->
  let i := store_with coll p0 sub0 s0 e0 c0 in
  let r := run_operation i l a arg env (3 + k) in
  exists tr,
    observed r = Ok tr /\ quiescent r = true /\ completions tr = 1 /\
    if twice i l a env
    then successes tr = 2 /\ errors tr = 0
    else successes tr + errors tr = 1.
Proof.
  intros T i r. subst r. unfold run_operation. rewrite issue_staged.
  subst i. rewrite options_stage.
  set (i := store_with coll p0 sub0 s0 e0 c0).
  set (lit := match l with Some l0 => l0 | None => _ end).
  unfold twice, body. destruct (is_read a) eqn:R.
  - destruct (read_counts i (effective_policy i l) (s_store lit)
                (or_default (s_success lit) s0) (or_default (s_error lit) e0)
                (or_default (s_complete lit) c0)
                (if truthy (s_store lit) then s_store lit else sub0)
                (name a) arg env T) as (tr & O & Q & C & N).
    rewrite quiescent_fuel by exact Q.
    exists tr. simpl andb. auto.
  - destruct (write_counts coll (options i) (effective_policy i l) (s_store lit)
                (or_default (s_success lit) s0) (or_default (s_error lit) e0)
                (or_default (s_complete lit) c0)
                (if truthy (s_store lit) then s_store lit else sub0)
                (name a) arg env T) as (tr & O & Q & C & N).
    { destruct a; try discriminate R; simpl; auto. }
    rewrite quiescent_fuel by exact Q.
    exists tr. simpl andb. auto.
Qed.

Lemma one_completion_per_operation_witness :
  truthful both_answer /\
  exists tr,
    observed (run_operation (store_with (VStr "books") (VStr NETWORK_FIRST)
                               (VObj []) Noop Noop Noop)
                (Some (asking CACHE_FIRST)) Query (VStr "id") both_answer (3 + 0))
    = Ok tr /\
    quiescent (run_operation (store_with (VStr "books") (VStr NETWORK_FIRST)
                                (VObj []) Noop Noop Noop)
                 (Some (asking CACHE_FIRST)) Query (VStr "id") both_answer (3 + 0))
    = true /\
    completions tr = 1 /\ successes tr + errors tr = 1.
Proof.
  split; [split; reflexivity|].
  apply (one_completion_per_operation (VStr "books") (VStr NETWORK_FIRST)
           (VObj []) Noop Noop Noop (Some (asking CACHE_FIRST)) Query
           (VStr "id") both_answer 0).
  split; reflexivity.
Defined.

(** C1, as stated, fails: a query under Both whose local and network
    calls both succeed notifies the success callback twice. *)
Lemma both_policy_notifies_twice :
  truthful both_answer /\
  observed (run_operation (plain_store (VStr "books")) (Some (asking BOTH))
              Query (VStr "id") both_answer 3)
  = Ok [ Configure (VObj []);
         Request Local "query" (VStr "id");
         Success (App 1) (VStr "cached") from_cache;
         Request Remote "query" (VStr "id");
         Success (App 1) (VStr "fetched") from_network;
         Put "query" (VStr "id") (VStr "fetched");
         Complete (App 3) ] /\
  forall tr,
    observed (run_operation (plain_store (VStr "books")) (Some (asking BOTH))
                Query (VStr "id") both_answer 3) = Ok tr ->
    successes tr + errors tr <> 1.
Proof.
  split; [split; reflexivity|]. split; [reflexivity|].
  intros tr H. vm_compute in H. injection H as <-. vm_compute. discriminate.
Qed.

(** ** Scenarios *)

Lemma scenario_staged (coll p0 sub0 : value) (s0 e0 c0 : callback)
    (l : option settings) (a : api) (arg : value) (outs : list outcome) :
  let i := store_with coll p0 sub0 s0 e0 c0 in
  scenario i l a arg outs =
  (body a arg 0 ;; settle_each outs)
    (prepared i
       (filled (effective_policy i l)
               (match l with Some l => s_store l | None => VUndefined end)
               (on_success s0 l) (on_error e0 l) (on_complete c0 l))
       (sub_options i l)).
Proof.
  intros i. unfold scenario. rewrite issue_staged. subst i.
  rewrite options_stage. destruct l; reflexivity.
Qed.

(** A read under Both with an options object of its own (or with
    none): when the local read succeeds and the network read then
    succeeds, the network request is issued only once the local outcome
    is known, the caller gets two success notifications, the local
    response first and the network response second, and the one
    completion comes after the cache write of the network response has
    settled. *)
Theorem both_local_then_network
    (coll p0 sub0 : value) (s0 e0 c0 : callback) (l : option settings)
    (a : api) (arg cached fetched : value) (written : outcome) :
  let i := store_with coll p0 sub0 s0 e0 c0 in
  is_read a = true ->
  effective_policy i l = VStr BOTH ->
  let issued := [Configure (sub_options i l); Request Local (name a) arg] in
  let first := [Success (on_success s0 l) cached from_cache;
                Request Remote (name a) arg] in
  let second := [Success (on_success s0 l) fetched from_network;
                 Put (name a) arg fetched] in
  observed (scenario i l a arg []) = Ok issued /\
  observed (scenario i l a arg [Succeeded cached from_cache])
    = Ok (issued ++ first)%list /\
  observed (scenario i l a arg [Succeeded cached from_cache;
                                Succeeded fetched from_network])
    = Ok (issued ++ first ++ second)%list /\
  observed (scenario i l a arg [Succeeded cached from_cache;
                                Succeeded fetched from_network; written])
    = Ok (issued ++ first ++ second ++ [Complete (on_complete c0 l)])%list /\
  quiescent (scenario i l a arg [Succeeded cached from_cache;
                                 Succeeded fetched from_network; written])
    = true.
Proof.
  intros i R P. subst i. rewrite !scenario_staged, P.
  destruct a; try discriminate R; repeat split; reflexivity.
Qed.

(** A read under Both with an options object of its own (or with
    none): when the local read fails and the network read succeeds, the
    caller gets exactly one success notification, with the network
    response; that response is written into the local cache, and the
    one completion comes once that write has settled. *)
Theorem both_local_fails_network_answers
    (coll p0 sub0 : value) (s0 e0 c0 : callback) (l : option settings)
    (a : api) (arg err fetched : value) (ie : info) (written : outcome) :
  let i := store_with coll p0 sub0 s0 e0 c0 in
  is_read a = true ->
  effective_policy i l = VStr BOTH ->
  let before :=
    [Configure (sub_options i l); Request Local (name a) arg;
     Request Remote (name a) arg;
     Success (on_success s0 l) fetched from_network;
     Put (name a) arg fetched] in
  observed (scenario i l a arg [Failed err ie; Succeeded fetched from_network])
    = Ok before /\
  quiescent (scenario i l a arg [Failed err ie; Succeeded fetched from_network])
    = false /\
  observed (scenario i l a arg [Failed err ie; Succeeded fetched from_network;
                                written])
    = Ok (before ++ [Complete (on_complete c0 l)])%list /\
  quiescent (scenario i l a arg [Failed err ie; Succeeded fetched from_network;
                                 written])
    = true.
Proof.
  intros i R P. subst i. rewrite !scenario_staged, P.
  destruct a; try discriminate R; repeat split; reflexivity.
Qed.

(** A read under NetworkFirst with an options object of its own (or
    with none): when the network read fails and the local read then
    succeeds, the success callback gets the local response, no cache
    write is attempted, and completion follows. *)
Theorem network_first_falls_back_to_cache
    (coll p0 sub0 : value) (s0 e0 c0 : callback) (l : option settings)
    (a : api) (arg err cached : value) (ie : info) :
  let i := store_with coll p0 sub0 s0 e0 c0 in
  is_read a = true ->
  effective_policy i l = VStr NETWORK_FIRST ->
  let r := scenario i l a arg [Failed err ie; Succeeded cached from_cache] in
  observed r
    = Ok [Configure (sub_options i l); Request Remote (name a) arg;
          Request Local (name a) arg;
          Success (on_success s0 l) cached from_cache;
          Complete (on_complete c0 l)] /\
  quiescent r = true.
Proof.
  intros i R P. subst i. rewrite !scenario_staged, P.
  destruct a; try discriminate R; repeat split; reflexivity.
Qed.


(** ** Saving and the cache *)

Lemma save_puts_at (coll : value) (io : object) (p sub : value)
    (s e c : callback) (x arg : value) (env : environment) (fuel : nat) :
  fuel <= 3 ->
  let r := (_write "save" arg 0 ;; drive fuel env)
             (prepared {| collection := coll; options := io |}
                       (filled p sub s e c) x) in
  exists tr,
    observed r = Ok tr /\
    (strict_eq_str coll "user" = true -> puts tr = []) /\
    (fuel = 3 -> quiescent r = true /\
       (strict_eq_str coll "user" = false ->
        _shouldUpdateCache p = true ->
        forall response inf,
          remote env = Succeeded response inf ->
          not_nullish response = true ->
          puts tr = [Put "query" (prop response "_id") response])).
Proof.
  intros F. destruct env as [lo re ca]. simpl remote.
  destruct (strict_eq_str coll "user") eqn:E.
  all: destruct re as [v inf|v inf].
  all: try destruct (not_nullish v) eqn:N.
  all: with_rows p.
  all: destruct fuel as [|[|[|[|fuel]]]]; try lia.
  all: settle_all.
  all: eexists; split; [reflexivity|]; split; [intros; try reflexivity; discriminate|].
  all: try (intros [=]).
  all: split; [reflexivity|]; intros Hu W response inf' [= <- <-] N';
       try discriminate Hu; try discriminate W; try congruence.
  all: reflexivity.
Qed.

Lemma save_staged (coll p0 sub0 : value) (s0 e0 c0 : callback)
    (l : option settings) (arg : value) (env : environment) (fuel : nat) :
  let i := store_with coll p0 sub0 s0 e0 c0 in
  run_operation i l Save arg env fuel =
  (_write "save" arg 0 ;; drive fuel env)
    (prepared i
       (filled (effective_policy i l)
               (match l with Some l => s_store l | None => VUndefined end)
               (on_success s0 l) (on_error e0 l) (on_complete c0 l))
       (sub_options i l)).
Proof.
  intros i. unfold run_operation. rewrite issue_staged. subst i.
  rewrite options_stage. destruct l; reflexivity.
Qed.

(** A save with an options object of its own (or with none).  On the
    "user" collection it never issues a cache write, whatever the policy
    and however far the backends got.  On another collection, under a
    policy that allows cache updates, with a network response that is
    not null, it issues exactly one cache write: into the 'query' slot,
    keyed by the response's [_id], with the whole response as the
    value. *)
Theorem save_cache_write
    (coll p0 sub0 : value) (s0 e0 c0 : callback) (l : option settings)
    (arg : value) (env : environment) :
  let i := store_with coll p0 sub0 s0 e0 c0 in
  (coll = VStr "user" ->
   forall fuel, exists tr,
     observed (run_operation i l Save arg env fuel) = Ok tr /\ puts tr = []) /\
  (coll <> VStr "user" ->
   _shouldUpdateCache (effective_policy i l) = true ->
   forall response inf k,
     remote env = Succeeded response inf ->
     not_nullish response = true ->
     exists tr,
       observed (run_operation i l Save arg env (3 + k)) = Ok tr /\
       quiescent (run_operation i l Save arg env (3 + k)) = true /\
       puts tr = [Put "query" (prop response "_id") response]).
Proof.
  intros i. split.
  - intros -> fuel.
    destruct (le_gt_dec fuel 3) as [F|F].
    + subst i. rewrite save_staged.
      edestruct save_puts_at as (tr & O & U & _); [exact F|].
      exists tr. split; [exact O|]. apply U. reflexivity.
    + replace fuel with (3 + (fuel - 3)) by lia.
      subst i. rewrite save_staged.
      edestruct save_puts_at with (fuel := 3) as (tr & O & U & Q); [lia|].
      destruct (Q eq_refl) as [Q' _].
      rewrite quiescent_fuel by exact Q'.
      exists tr. split; [exact O|]. apply U. reflexivity.
  - intros NU W response inf k R N.
    subst i. rewrite save_staged.
    edestruct save_puts_at with (fuel := 3) as (tr & O & _ & Q); [lia|].
    destruct (Q eq_refl) as [Q' P].
    rewrite quiescent_fuel by exact Q'.
    exists tr. split; [exact O|]. split; [exact Q'|].
    apply (P ltac:(destruct (strict_eq_str coll "user") eqn:E;
                   [apply strict_eq_str_spec in E; contradiction|reflexivity])
             W response inf R N).
Qed.

(** ** Reading under CacheOnly *)

Lemma perform_read (a : api) (arg : value) :
  is_read a = true ->
  perform a arg = fun opts => o <- _options opts ;; _read (name a) arg o.
Proof. destruct a; try discriminate; reflexivity. Qed.

(** Evaluate a run and name the trace it leaves. *)
Ltac observe :=
  match goal with
  | |- exists tr, ?X = Ok tr /\ _ =>
      let v := eval vm_compute in X in
      match v with
      | Ok ?t => exists t; split; [vm_compute; reflexivity|]
      end
  end.

(** Under CacheOnly a read asks the local store only and is answered
    by it alone: no request goes to the network store and nothing is
    written to the cache.  Issued twice, each time with an options
    object of its own (or with none), the read behaves the same both
    times.  Issued again with the options object of the first call it
    still stays away from the network and the cache. *)
Theorem cache_only_reads_stay_local
    (coll p0 sub0 : value) (s0 e0 c0 : callback) (l : option settings)
    (a : api) (arg : value) (out : outcome) :
  let i := store_with coll p0 sub0 s0 e0 c0 in
  is_read a = true ->
  effective_policy i l = VStr CACHE_ONLY ->
  let once :=
    [Configure (sub_options i l); Request Local (name a) arg;
     delivered (on_success s0 l) (on_error e0 l) out;
     Complete (on_complete c0 l)] in
  observed (read_once l a arg out (world i)) = Ok once /\
  quiescent (read_once l a arg out (world i)) = true /\
  observed ((read_once l a arg out ;; read_once l a arg out) (world i))
    = Ok (once ++ once)%list /\
  quiescent ((read_once l a arg out ;; read_once l a arg out) (world i))
    = true /\
  requests Remote once = [] /\ puts once = [] /\
  forall l', l = Some l' ->
    exists tr,
      observed (read_again l' a arg out (world i)) = Ok tr /\
      requests Remote tr = [] /\ puts tr = [].
Proof.
  intros i R P. subst i.
  unfold read_once, read_again. rewrite !(perform_read a arg R).
  generalize (name a) as nm. clear a R. intros nm.
  destruct l as [[p sub s e c]|]; simpl in P.
  - assert (D : p = VStr CACHE_ONLY \/
                (p0 = VStr CACHE_ONLY /\
                 (p = VUndefined \/ p = VNull \/ p = VBool false \/
                  p = VNum 0 \/ p = VStr ""))).
    { destruct p as [| |b|n|t|f]; simpl in P; auto 7.
      - destruct b; auto 7.
      - destruct n; simpl in P; auto 7.
      - destruct t; simpl in P; auto 7. }
    clear P.
    destruct D as [-> | [-> [-> | [-> | [-> | [-> | ->]]]]]].
    all: destruct s, e, c, out as [v [[|]]|v [[|]]].
    all: repeat split; try (vm_compute; reflexivity).
    all: intros l' [= <-]; observe; split; reflexivity.
  - subst. destruct out as [v [[|]]|v [[|]]].
    all: repeat split; try (vm_compute; reflexivity).
    all: intros l' [=].
Qed.

(** ** The options merger *)

Lemma nth_error_replace {A : Type} (l : list A) (n : nat) (a x : A) :
  nth_error l n = Some x -> nth_error (replace n a l) n = Some a.
Proof.
  revert n. induction l as [|y l IH]; intros [|n]; simpl; try discriminate; auto.
Qed.

Lemma nth_error_replace_other {A : Type} (l : list A) (n m : nat) (a : A) :
  m <> n -> nth_error (replace n a l) m = nth_error l m.
Proof.
  revert n m. induction l as [|y l IH]; intros [|n] [|m] H; simpl; auto.
  contradiction.
Qed.

Lemma length_replace {A : Type} (l : list A) (n : nat) (a : A) :
  length (replace n a l) = length l.
Proof.
  revert n. induction l as [|y l IH]; intros [|n]; simpl; auto.
Qed.

(** [_options] on an options object the caller passed: it never fails,
    touches that object only, and fills each missing slot from the
    store's own options. *)
Lemma _options_at (s : state) (r : ref) (before : object) :
  nth_error (heap s) r = Some before ->
  exists s',
    _options (Some r) s = Ok (r, s') /\
    this s' = this s /\ cells s' = cells s /\ pending s' = pending s /\
    trace s' = (trace s ++
                [Configure (policy_or (store before)
                                      (store (options (this s))))])%list /\
    length (heap s') = length (heap s) /\
    (forall r', r' <> r -> nth_error (heap s') r' = nth_error (heap s) r') /\
    nth_error (heap s') r =
      Some {| policy := policy_or (policy before) (policy (options (this s)));
              store := store before;
              success := slot_or (success before) (success (options (this s)));
              error := slot_or (error before) (error (options (this s)));
              complete := slot_or (complete before)
                                  (complete (options (this s))) |}.
Proof.
  intros H. destruct before as [p sub fs fe fc].
  unfold _options, policy_or, slot_or, bind, ret, read, get, update, emit.
  simpl. rewrite H. simpl.
  destruct (truthy p) eqn:T; simpl;
    rewrite ?(nth_error_replace _ _ _ _ H), ?H; simpl.
  all: destruct fs as [fs|]; simpl.
  all: repeat (erewrite ?nth_error_replace
                 by (first [eassumption | eapply nth_error_replace; eassumption]);
               rewrite ?H; simpl).
  all: destruct fe as [fe|]; simpl.
  all: repeat (erewrite ?nth_error_replace
                 by (first [eassumption | eapply nth_error_replace; eassumption
                           | eapply nth_error_replace, nth_error_replace; eassumption]);
               rewrite ?H; simpl).
  all: destruct fc as [fc|]; simpl.
  all: repeat (erewrite ?nth_error_replace
                 by (first [eassumption | eapply nth_error_replace; eassumption
                           | eapply nth_error_replace, nth_error_replace; eassumption
                           | eapply nth_error_replace, nth_error_replace, nth_error_replace; eassumption]);
               rewrite ?H; simpl).
  all: eexists; split; [reflexivity|]; simpl.
  all: rewrite ?length_replace.
  all: repeat split; try reflexivity; try assumption.
  all: try (intros r' Hr; rewrite ?nth_error_replace_other by exact Hr; reflexivity).
  all: try (erewrite nth_error_replace; [reflexivity|];
            repeat (first [eassumption | eapply nth_error_replace])).
Qed.

(** Evaluate a run and name the result it gives. *)
Ltac run :=
  match goal with
  | |- exists r s', ?X = Ok (r, s') /\ _ =>
      let v := eval vm_compute in X in
      match v with
      | Ok (?r0, ?s0) => exists r0, s0; split; [vm_compute; reflexivity|]
      end
  end.

Lemma _options_result (s : state) (opts : option ref) (before : object) :
  call_site s opts = Some before ->
  exists r s',
    _options opts s = Ok (r, s') /\
    this s' = this s /\
    nth_error (heap s') r =
      Some {| policy := policy_or (policy before) (policy (options (this s)));
              store := store before;
              success := slot_or (success before) (success (options (this s)));
              error := slot_or (error before) (error (options (this s)));
              complete := slot_or (complete before)
                                  (complete (options (this s))) |}.
Proof.
  destruct opts as [r|]; simpl; intros H.
  - destruct (_options_at s r before H) as (s' & E & T & _ & _ & _ & _ & _ & A).
    exists r, s'. auto.
  - injection H as <-.
    set (s1 := {| this := this s; heap := (heap s ++ [empty_object])%list;
                  cells := cells s; pending := pending s; trace := trace s |}).
    assert (H1 : nth_error (heap s1) (length (heap s)) = Some empty_object).
    { simpl. rewrite nth_error_app2, Nat.sub_diag by lia. reflexivity. }
    destruct (_options_at s1 _ _ H1) as (s' & E & T & _ & _ & _ & _ & _ & A).
    exists (length (heap s)), s'. repeat split; [exact E | exact T | exact A].
Qed.

Lemma configure_keeps_configured (s s' : state) (r : ref) :
  configured (options (this s)) ->
  configure r s = Ok (tt, s') ->
  configured (options (this s')).
Proof.
  destruct s as [[coll [p0 sub0 fs0 fe0 fc0]] h cs pd tr].
  unfold configured; simpl. intros (P & S & E & C).
  cbv [configure bind read get set_options set_this ret heap this options
       collection policy store success error complete cells pending trace
       set_policy set_store set_success set_error set_complete].
  destruct (nth_error h r) as [[p sub fs fe fc]|]; [|discriminate].
  destruct (truthy p) eqn:T, (truthy sub), fs, fe, fc;
    intros [= <-]; simpl; repeat split; auto; discriminate.
Qed.

Lemma constructor_configures (s s' : state) (coll : value) (opts : option ref) :
  success (options (this s)) <> None ->
  error (options (this s)) <> None ->
  complete (options (this s)) <> None ->
  constructor coll opts s = Ok (tt, s') ->
  configured (options (this s')).
Proof.
  intros S E C. unfold constructor.
  cbv [bind get set_this set_options]. destruct opts as [r|].
  - apply configure_keeps_configured. simpl. repeat split; auto.
  - intros [= <-]. simpl. repeat split; auto.
Qed.

(** C9, as amended.  For every options argument, absent or not,
    [_options] succeeds and returns options in which a missing policy is
    the store's own policy and a missing success, error or complete
    callback is the store's own callback, so that none is missing and
    the policy is set.  The store's own callbacks are the no-ops as long
    as nothing else was configured. *)
Theorem options_merger_fills :
  (forall (s : state) (opts : option ref) (before : object),
      configured (options (this s)) ->
      call_site s opts = Some before ->
      exists r s' after,
        _options opts s = Ok (r, s') /\
        nth_error (heap s') r = Some after /\
        policy after = policy_or (policy before) (policy (options (this s))) /\
        success after = slot_or (success before) (success (options (this s))) /\
        error after = slot_or (error before) (error (options (this s))) /\
        complete after
          = slot_or (complete before) (complete (options (this s))) /\
        configured after) /\
  (forall coll : value,
      exists s0,
        constructor coll None boot = Ok (tt, s0) /\
        options (this s0)
          = {| policy := VStr NETWORK_FIRST; store := VObj [];
               success := Some (Caller Noop); error := Some (Caller Noop);
               complete := Some Noop |}).
Proof.
  split.
  - intros s opts before (P & S & E & C) H.
    destruct (_options_result s opts before H) as (r & s' & R & _ & A).
    exists r, s'. eexists. split; [exact R|]. split; [exact A|]. simpl.
    repeat split; try reflexivity.
    + unfold policy_or. destruct (truthy (policy before)) eqn:T; assumption.
    + destruct (success before); [discriminate | assumption].
    + destruct (error before); [discriminate | assumption].
    + destruct (complete before); [discriminate | assumption].
  - intros coll. eexists. split; reflexivity.
Qed.

Lemma options_merger_fills_witness :
  configured (options (this (world (plain_store (VStr "books"))))) /\
  call_site (world (plain_store (VStr "books"))) None = Some empty_object /\
  exists r s' after,
    _options None (world (plain_store (VStr "books"))) = Ok (r, s') /\
    nth_error (heap s') r = Some after /\
    policy after = policy_or VUndefined (VStr NETWORK_FIRST) /\
    success after = slot_or None (Some (Caller Noop)) /\
    error after = slot_or None (Some (Caller Noop)) /\
    complete after = slot_or None (Some Noop) /\
    configured after.
Proof.
  assert (C : configured (options (this (world (plain_store (VStr "books")))))).
  { repeat split; discriminate. }
  split; [exact C|]. split; [reflexivity|].
  exact (proj1 options_merger_fills (world (plain_store (VStr "books"))) None
           empty_object C eq_refl).
Defined.

(** C9, as stated, fails: once [configure] (here through the
    constructor) installed a success callback, a call without one gets
    that callback, not a no-op. *)
Lemma installed_callback_is_the_default :
  exists r s',
    (c <- alloc (literal listening) ;;
     constructor (VStr "books") (Some c) ;;
     _options None) boot = Ok (r, s') /\
    option_map success (nth_error (heap s') r) = Some (Some (Caller (App 7))) /\
    Caller (App 7) <> Caller Noop.
Proof.
  run. split; [reflexivity | discriminate].
Qed.

(** ** Unrecognised policies *)

(** C8, as amended.  A policy outside the five enumerated values is
    not rejected.  If it is falsy it counts as missing and the store's
    own policy takes its place; otherwise [_options] keeps it as it is,
    and every policy predicate answers false for it. *)
Theorem unrecognised_policy_is_kept (s : state) (r : ref) (before : object) :
  nth_error (heap s) r = Some before ->
  recognised (policy before) = false ->
  exists s' after,
    _options (Some r) s = Ok (r, s') /\
    nth_error (heap s') r = Some after /\
    (truthy (policy before) = false ->
     policy after = policy (options (this s))) /\
    (truthy (policy before) = true ->
     policy after = policy before /\
     _shouldCallNetworkFirst (policy after) = false /\
     _shouldCallBoth (policy after) = false /\
     _shouldCallBothCallbacks (policy after) = false /\
     _shouldCallFallback (policy after) = false /\
     _shouldUpdateCache (policy after) = false).
Proof.
  intros H U.
  destruct (_options_result s (Some r) before H) as (r' & s' & R & _ & A).
  assert (r' = r) as ->.
  { destruct (_options_at s r before H) as (s'' & R' & _). congruence. }
  exists s'. eexists. split; [exact R|]. split; [exact A|]. simpl.
  unfold policy_or. split; intros T; rewrite T; [reflexivity|].
  split; [reflexivity|]. apply unrecognised_predicates, U.
Qed.

Lemma unrecognised_policy_is_kept_witness :
  exists s' after,
    _options (Some 0)
      {| this := plain_store (VStr "books"); heap := [literal typo];
         cells := []; pending := []; trace := [] |} = Ok (0, s') /\
    nth_error (heap s') 0 = Some after /\
    (truthy (policy (literal typo)) = false ->
     policy after = VStr NETWORK_FIRST) /\
    (truthy (policy (literal typo)) = true ->
     policy after = policy (literal typo) /\
     _shouldCallNetworkFirst (policy after) = false /\
     _shouldCallBoth (policy after) = false /\
     _shouldCallBothCallbacks (policy after) = false /\
     _shouldCallFallback (policy after) = false /\
     _shouldUpdateCache (policy after) = false).
Proof.
  exact (unrecognised_policy_is_kept
           {| this := plain_store (VStr "books"); heap := [literal typo];
              cells := []; pending := []; trace := [] |}
           0 (literal typo) eq_refl eq_refl).
Defined.

(** C8, as stated, fails: a misspelt policy passes [_options] as it is,
    neither rejected nor replaced by the store's default, and the read
    goes on, served from the local store alone. *)
Lemma misspelt_policy_is_accepted :
  recognised (s_policy typo) = false /\
  (exists r s',
      (o <- argument (Some typo) ;; _options o)
        (world (plain_store (VStr "books"))) = Ok (r, s') /\
      option_map policy (nth_error (heap s') r) = Some (VStr "netwrokfirst") /\
      policy (options (this s')) = VStr NETWORK_FIRST) /\
  observed (scenario (plain_store (VStr "books")) (Some typo) Query (VStr "id")
              [Succeeded (VStr "cached") from_cache])
  = Ok [ Configure (VObj []);
         Request Local "query" (VStr "id");
         Success (App 1) (VStr "cached") from_cache;
         Complete (App 3) ].
Proof.
  split; [reflexivity|]. split; [|vm_compute; reflexivity].
  run. split; reflexivity.
Qed.

(** C6.  The code breaks the claim when the second read is issued with
    the options object of the first: the second read still asks the
    local store only, but its success callback is never called and its
    complete callback is called twice. *)
Lemma reused_options_change_the_second_read :
  observed (read_once (Some (asking CACHE_ONLY)) Query (VStr "id")
              (Succeeded (VStr "cached") from_cache)
              (world (plain_store (VStr "books"))))
  = Ok [ Configure (VObj []);
         Request Local "query" (VStr "id");
         Success (App 1) (VStr "cached") from_cache;
         Complete (App 3) ] /\
  observed (read_again (asking CACHE_ONLY) Query (VStr "id")
              (Succeeded (VStr "cached") from_cache)
              (world (plain_store (VStr "books"))))
  = Ok [ Configure (VObj []);
         Request Local "query" (VStr "id");
         Success (App 1) (VStr "cached") from_cache;
         Complete (App 3);
         Configure (VObj []);
         Request Local "query" (VStr "id");
         Complete (App 3);
         Complete (App 3) ].
Proof. split; vm_compute; reflexivity. Qed.

(** ** The theorems at work on a bookshop *)

Lemma both_local_then_network_witness :
  is_read Query = true /\
  effective_policy books (Some (asking BOTH)) = VStr BOTH /\
  observed (scenario books (Some (asking BOTH)) Query (VStr "b1")
              [Succeeded (VStr "cached") from_cache;
               Succeeded (VStr "fetched") from_network;
               Succeeded VUndefined from_cache])
  = Ok [ Configure (VObj []);
         Request Local "query" (VStr "b1");
         Success (App 1) (VStr "cached") from_cache;
         Request Remote "query" (VStr "b1");
         Success (App 1) (VStr "fetched") from_network;
         Put "query" (VStr "b1") (VStr "fetched");
         Complete (App 3) ].
Proof.
  split; [reflexivity|]. split; [reflexivity|].
  exact (proj1 (proj2 (proj2 (proj2
           (both_local_then_network (VStr "books") (VStr NETWORK_FIRST)
              (VObj []) Noop Noop Noop (Some (asking BOTH)) Query (VStr "b1")
              (VStr "cached") (VStr "fetched") (Succeeded VUndefined from_cache)
              eq_refl eq_refl))))).
Defined.

Lemma both_local_fails_network_answers_witness :
  is_read Query = true /\
  effective_policy books (Some (asking BOTH)) = VStr BOTH /\
  observed (scenario books (Some (asking BOTH)) Query (VStr "b1")
              [Failed (VStr "missing") from_cache;
               Succeeded (VStr "fetched") from_network;
               Failed (VStr "full") from_cache])
  = Ok [ Configure (VObj []);
         Request Local "query" (VStr "b1");
         Request Remote "query" (VStr "b1");
         Success (App 1) (VStr "fetched") from_network;
         Put "query" (VStr "b1") (VStr "fetched");
         Complete (App 3) ].
Proof.
  split; [reflexivity|]. split; [reflexivity|].
  exact (proj1 (proj2 (proj2
           (both_local_fails_network_answers (VStr "books") (VStr NETWORK_FIRST)
              (VObj []) Noop Noop Noop (Some (asking BOTH)) Query (VStr "b1")
              (VStr "missing") (VStr "fetched") from_cache
              (Failed (VStr "full") from_cache) eq_refl eq_refl)))).
Defined.

Lemma network_first_falls_back_to_cache_witness :
  is_read Aggregate = true /\
  effective_policy books None = VStr NETWORK_FIRST /\
  observed (scenario books None Aggregate (VStr "count")
              [Failed (VStr "offline") from_network;
               Succeeded (VNum 3) from_cache])
  = Ok [ Configure (VObj []);
         Request Remote "aggregate" (VStr "count");
         Request Local "aggregate" (VStr "count");
         Success Noop (VNum 3) from_cache;
         Complete Noop ].
Proof.
  split; [reflexivity|]. split; [reflexivity|].
  exact (proj1
           (network_first_falls_back_to_cache (VStr "books") (VStr NETWORK_FIRST)
              (VObj []) Noop Noop Noop None Aggregate (VStr "count")
              (VStr "offline") (VNum 3) from_network eq_refl eq_refl)).
Defined.


Lemma save_cache_write_witness :
  (VStr "user" = VStr "user" /\
   exists tr,
     observed (run_operation users (Some (asking BOTH)) Save saved
                 network_saves 3) = Ok tr /\ puts tr = []) /\
  (VStr "books" <> VStr "user" /\
   _shouldUpdateCache (effective_policy books (Some (asking CACHE_FIRST))) = true /\
   remote network_saves = Succeeded saved from_network /\
   not_nullish saved = true /\
   exists tr,
     observed (run_operation books (Some (asking CACHE_FIRST)) Save saved
                 network_saves (3 + 0)) = Ok tr /\
     quiescent (run_operation books (Some (asking CACHE_FIRST)) Save saved
                  network_saves (3 + 0)) = true /\
     puts tr = [Put "query" (prop saved "_id") saved]).
Proof.
  split.
  - split; [reflexivity|].
    exact (proj1 (save_cache_write (VStr "user") (VStr NETWORK_FIRST) (VObj [])
                    Noop Noop Noop (Some (asking BOTH)) saved network_saves)
             eq_refl 3).
  - assert (N : VStr "books" <> VStr "user") by discriminate.
    split; [exact N|]. split; [reflexivity|]. split; [reflexivity|].
    split; [reflexivity|].
    exact (proj2 (save_cache_write (VStr "books") (VStr NETWORK_FIRST) (VObj [])
                    Noop Noop Noop (Some (asking CACHE_FIRST)) saved
                    network_saves)
             N eq_refl saved from_network 0 eq_refl eq_refl).
Defined.

Lemma cache_only_reads_stay_local_witness :
  is_read Query = true /\
  effective_policy books (Some (asking CACHE_ONLY)) = VStr CACHE_ONLY /\
  observed ((read_once (Some (asking CACHE_ONLY)) Query (VStr "b1")
               (Succeeded (VStr "cached") from_cache) ;;
             read_once (Some (asking CACHE_ONLY)) Query (VStr "b1")
               (Succeeded (VStr "cached") from_cache)) (world books))
  = Ok [ Configure (VObj []);
         Request Local "query" (VStr "b1");
         Success (App 1) (VStr "cached") from_cache;
         Complete (App 3);
         Configure (VObj []);
         Request Local "query" (VStr "b1");
         Success (App 1) (VStr "cached") from_cache;
         Complete (App 3) ].
Proof.
  split; [reflexivity|]. split; [reflexivity|].
  exact (proj1 (proj2 (proj2
           (cache_only_reads_stay_local (VStr "books") (VStr NETWORK_FIRST)
              (VObj []) Noop Noop Noop (Some (asking CACHE_ONLY)) Query
              (VStr "b1") (Succeeded (VStr "cached") from_cache)
              eq_refl eq_refl)))).
Defined.

(** ** The whole course of an operation *)

Lemma read_course_at (i : instance) (p sub : value) (s e c : callback)
    (x : value) (nm : string) (arg : value) (env : environment) :
  truthful env ->
  let r := (_read nm arg 0 ;; drive 3 env) (prepared i (filled p sub s e c) x) in
  observed r = Ok (Configure x :: read_course p nm arg s e c env) /\
  quiescent r = true.
Proof.
  outcomes env.
  all: unfold read_course, maintenance, asked; simpl local; simpl remote.
  all: with_rows p.
  all: settle_all.
  all: split; reflexivity.
Qed.

Lemma write_course_at (coll : value) (io : object) (p sub : value)
    (s e c : callback) (x : value) (a : api) (arg : value)
    (env : environment) :
  is_read a = false ->
  let r := (_write (name a) arg 0 ;; drive 3 env)
             (prepared {| collection := coll; options := io |}
                       (filled p sub s e c) x) in
  observed r = Ok (Configure x :: write_course coll p a arg s e c env) /\
  quiescent r = true.
Proof.
  intros R. destruct env as [lo re ca].
  unfold write_course; simpl remote.
  destruct re as [v inf|v inf].
  all: destruct a; try discriminate R.
  all: with_rows p.
  all: try destruct (strict_eq_str coll "user") eqn:E.
  all: try destruct (not_nullish v) eqn:N.
  all: settle_all.
  all: split; reflexivity.
Qed.

Lemma operation_staged (coll p0 sub0 : value) (s0 e0 c0 : callback)
    (l : option settings) (a : api) (arg : value) (env : environment)
    (fuel : nat) :
  let i := store_with coll p0 sub0 s0 e0 c0 in
  run_operation i l a arg env fuel =
  (body a arg 0 ;; drive fuel env)
    (prepared i
       (filled (effective_policy i l)
               (match l with Some l => s_store l | None => VUndefined end)
               (on_success s0 l) (on_error e0 l) (on_complete c0 l))
       (sub_options i l)).
Proof.
  intros i. unfold run_operation. rewrite issue_staged. subst i.
  rewrite options_stage. destruct l; reflexivity.
Qed.

(** Every operation runs its course and then rests, provided that, for a
    read, the backends are truthful about where a response is from. *)
Lemma operation_course (coll p0 sub0 : value) (s0 e0 c0 : callback)
    (l : option settings) (a : api) (arg : value) (env : environment)
    (k : nat) :
  let i := store_with coll p0 sub0 s0 e0 c0 in
  (is_read a = true -> truthful env) ->
  observed (run_operation i l a arg env (3 + k)) = Ok (course i l a arg env) /\
  quiescent (run_operation i l a arg env (3 + k)) = true.
Proof.
  intros i T. subst i. rewrite operation_staged. unfold course, body.
  destruct (is_read a) eqn:R.
  - destruct (read_course_at (store_with coll p0 sub0 s0 e0 c0)
                (effective_policy (store_with coll p0 sub0 s0 e0 c0) l)
                (match l with Some l0 => s_store l0 | None => VUndefined end)
                (on_success s0 l) (on_error e0 l) (on_complete c0 l)
                (sub_options (store_with coll p0 sub0 s0 e0 c0) l)
                (name a) arg env (T eq_refl)) as [O Q].
    rewrite quiescent_fuel by exact Q. split; [exact O | exact Q].
  - destruct (write_course_at coll (options (store_with coll p0 sub0 s0 e0 c0))
                (effective_policy (store_with coll p0 sub0 s0 e0 c0) l)
                (match l with Some l0 => s_store l0 | None => VUndefined end)
                (on_success s0 l) (on_error e0 l) (on_complete c0 l)
                (sub_options (store_with coll p0 sub0 s0 e0 c0) l)
                a arg env R) as [O Q].
    rewrite quiescent_fuel by exact Q. split; [exact O | exact Q].
Qed.

(** ** Further properties of the orchestrators *)

Ltac known :=
  repeat match goal with
         | U : _ = _ |- _ => rewrite U
         end.

Section Operations.

Variables (coll p0 sub0 : value) (s0 e0 c0 : callback).
Variables (l : option settings) (arg : value) (env : environment) (k : nat).

Let i : instance := store_with coll p0 sub0 s0 e0 c0.
Let p : value := effective_policy i l.
Let run (a : api) : result (unit * state) := run_operation i l a arg env (3 + k).

(** Writes are never served from, nor tried on, the local store: under
    every policy, CacheOnly included, a write sends exactly one request,
    to the network store. *)
Theorem writes_ask_the_network_only (a : api) :
  is_read a = false ->
  exists tr,
    observed (run a) = Ok tr /\ quiescent (run a) = true /\
    requests Remote tr = [Request Remote (name a) arg] /\
    requests Local tr = [].
Proof.
  intros R.
  destruct (operation_course coll p0 sub0 s0 e0 c0 l a arg env k) as [O Q];
    [congruence|].
  eexists. split; [exact O|]. split; [exact Q|].
  unfold course, write_course. rewrite R.
  destruct (remote env) as [v inf|v inf]; [|split; reflexivity].
  destruct (_shouldUpdateCache _); [|split; reflexivity].
  destruct a; try discriminate R; try (split; reflexivity).
  destruct (negb _ && _); split; reflexivity.
Qed.

(** A successful remove or removeWithQuery under a policy that updates
    the cache invalidates the matching cache slot, the 'query' slot for
    remove and the 'queryWithQuery' slot for removeWithQuery, by one
    write of [null] keyed by the argument; this holds on every
    collection, "user" included, and whatever the response is. *)
Theorem removals_invalidate_the_cache (a : api) (response : value) (inf : info) :
  a = Remove \/ a = RemoveWithQuery ->
  _shouldUpdateCache p = true ->
  remote env = Succeeded response inf ->
  observed (run a)
  = Ok [ Configure (sub_options i l);
         Request Remote (name a) arg;
         Success (on_success s0 l) response inf;
         Put (slot_of a) arg VNull;
         Complete (on_complete c0 l) ].
Proof.
  intros A U E.
  destruct (operation_course coll p0 sub0 s0 e0 c0 l a arg env k) as [O Q].
  { destruct A; subst a; discriminate. }
  fold i in O. fold (run a) in O. rewrite O.
  unfold course, write_course. fold i p. rewrite U, E.
  destruct A; subst a; reflexivity.
Qed.

(** A write that fails on the network reports the error, completes, and
    leaves the cache alone, under every policy. *)
Theorem failed_write_reports_and_completes (a : api) (err : value) (inf : info) :
  is_read a = false ->
  remote env = Failed err inf ->
  observed (run a)
  = Ok [ Configure (sub_options i l);
         Request Remote (name a) arg;
         Error (on_error e0 l) err inf;
         Complete (on_complete c0 l) ].
Proof.
  intros R E.
  destruct (operation_course coll p0 sub0 s0 e0 c0 l a arg env k) as [O Q];
    [congruence|].
  fold i in O. fold (run a) in O. rewrite O.
  unfold course, write_course. fold i p. rewrite R, E. reflexivity.
Qed.

(** Under a policy that does not update the cache (NoCache, CacheOnly,
    or a value that is no policy at all) no operation ever writes to
    the cache. *)
Theorem no_cache_write_without_update (a : api) :
  truthful env ->
  _shouldUpdateCache p = false ->
  exists tr, observed (run a) = Ok tr /\ puts tr = [].
Proof.
  intros T U.
  destruct (operation_course coll p0 sub0 s0 e0 c0 l a arg env k) as [O Q];
    [auto|].
  eexists. split; [exact O|].
  unfold course, read_course, write_course, maintenance. fold i p.
  rewrite U.
  destruct (is_read a).
  - destruct (_shouldCallNetworkFirst p), (_shouldCallBoth p),
      (_shouldCallBothCallbacks p), (_shouldCallFallback p);
      unfold asked; destruct (local env), (remote env); reflexivity.
  - destruct (remote env); reflexivity.
Qed.

(** A save whose network response is [null] or [undefined] caches
    nothing and completes right after the success notification. *)
Theorem save_of_nothing_skips_the_cache (response : value) (inf : info) :
  remote env = Succeeded response inf ->
  not_nullish response = false ->
  observed (run Save)
  = Ok [ Configure (sub_options i l);
         Request Remote "save" arg;
         Success (on_success s0 l) response inf;
         Complete (on_complete c0 l) ].
Proof.
  intros E N.
  destruct (operation_course coll p0 sub0 s0 e0 c0 l Save arg env k) as [O Q];
    [discriminate|].
  fold i in O. fold (run Save) in O. rewrite O.
  unfold course, write_course. fold i p. rewrite E, N.
  simpl. rewrite andb_false_r. destruct (_shouldUpdateCache p); reflexivity.
Qed.

End Operations.

Section Reads.

Variables (coll p0 sub0 : value) (s0 e0 c0 : callback).
Variables (l : option settings) (a : api) (arg : value).
Variables (env : environment) (k : nat).
Hypothesis reading : is_read a = true.
Hypothesis honest : truthful env.

Let i : instance := store_with coll p0 sub0 s0 e0 c0.
Let p : value := effective_policy i l.
Let run : result (unit * state) := run_operation i l a arg env (3 + k).

Lemma read_runs :
  observed run = Ok (Configure (sub_options i l) ::
                     read_course p (name a) arg (on_success s0 l)
                       (on_error e0 l) (on_complete c0 l) env) /\
  quiescent run = true.
Proof.
  destruct (operation_course coll p0 sub0 s0 e0 c0 l a arg env k) as [O Q];
    [auto|].
  split; [|exact Q]. fold i in O. fold run in O. rewrite O.
  unfold course. rewrite reading. reflexivity.
Qed.

(** A read asks the store its policy puts first, and then the other one
    only if the policy lets it go on after the first outcome; no store
    is asked twice. *)
Theorem read_asks_each_store_at_most_once :
  exists tr,
    observed run = Ok tr /\
    all_requests tr
    = Request (primary_of p) (name a) arg ::
      (if goes_on p (asked env (primary_of p))
       then [Request (secondary_of p) (name a) arg] else []).
Proof.
  destruct read_runs as [O _]. eexists. split; [exact O|].
  unfold read_course, maintenance, goes_on, primary_of, secondary_of.
  destruct honest as [Hl Hr]. clear honest.
  with_rows p; known; unfold asked;
    destruct (local env), (remote env); reflexivity.
Qed.

(** A read writes to the cache exactly when its policy updates the
    cache and the network store answered: then it writes that answer,
    once, under the read's own operation name and argument. *)
Theorem read_caches_the_network_answer :
  exists tr,
    observed run = Ok tr /\
    puts tr
    = if _shouldUpdateCache p && succeeded (remote env)
      then [Put (name a) arg (payload (remote env))] else [].
Proof.
  destruct read_runs as [O _]. eexists. split; [exact O|].
  unfold read_course, maintenance.
  destruct honest as [Hl Hr]. clear honest.
  with_rows p; known; unfold asked;
    destruct (local env), (remote env); reflexivity.
Qed.

(** When the first store answered and the second one, asked because the
    policy calls both, fails, that failure is kept from the caller: no
    error notification, and completion at once. *)
Theorem late_failure_is_silent (cached err : value) (ic ie : info) :
  _shouldCallBoth p = true ->
  local env = Succeeded cached ic ->
  remote env = Failed err ie ->
  observed run
  = Ok [ Configure (sub_options i l);
         Request Local (name a) arg;
         Success (on_success s0 l) cached ic;
         Request Remote (name a) arg;
         Complete (on_complete c0 l) ].
Proof.
  intros B L R. destruct read_runs as [O _]. rewrite O.
  unfold read_course, maintenance, asked.
  with_rows p; try congruence; known; reflexivity.
Qed.

(** When both stores fail under a policy with a fallback, the caller
    gets one error, the second store's; the first store's error is
    dropped. *)
Theorem fallback_reports_the_last_error (err1 err2 : value) (i1 i2 : info) :
  _shouldCallFallback p = true ->
  asked env (primary_of p) = Failed err1 i1 ->
  asked env (secondary_of p) = Failed err2 i2 ->
  observed run
  = Ok [ Configure (sub_options i l);
         Request (primary_of p) (name a) arg;
         Request (secondary_of p) (name a) arg;
         Error (on_error e0 l) err2 i2;
         Complete (on_complete c0 l) ].
Proof.
  unfold primary_of, secondary_of.
  intros F E1 E2. destruct read_runs as [O _]. rewrite O.
  unfold read_course. rewrite E1, F, E2. reflexivity.
Qed.

(** Under CacheFirst the caller is served from the local store alone,
    even when the network answers as well: the network answer only
    refreshes the cache, before completion. *)
Theorem cache_first_serves_local_then_refreshes (cached fetched : value)
    (ic ifetched : info) :
  p = VStr CACHE_FIRST ->
  local env = Succeeded cached ic ->
  remote env = Succeeded fetched ifetched ->
  observed run
  = Ok [ Configure (sub_options i l);
         Request Local (name a) arg;
         Success (on_success s0 l) cached ic;
         Request Remote (name a) arg;
         Put (name a) arg fetched;
         Complete (on_complete c0 l) ].
Proof.
  intros P L R. destruct read_runs as [O _]. rewrite O.
  rewrite P. unfold read_course, maintenance, asked. simpl.
  rewrite L, R. reflexivity.
Qed.

End Reads.

(** The policy predicates are nested: whatever delivers both responses
    calls both stores, whatever calls both stores starts with the local
    one, and the policies with a fallback are exactly those that update
    the cache. *)
Theorem policy_predicates_nest (p : value) :
  _shouldCallBothCallbacks p && negb (_shouldCallBoth p) = false /\
  _shouldCallBoth p && _shouldCallNetworkFirst p = false /\
  _shouldCallFallback p = _shouldUpdateCache p.
Proof.
  with_rows p; known; repeat split; reflexivity.
Qed.

Lemma plain_read_at (i : instance) (p sub : value) (s e c : callback)
    (x : value) (nm : string) (arg : value) (env : environment) :
  recognised p = false ->
  let r := (_read nm arg 0 ;; drive 3 env) (prepared i (filled p sub s e c) x) in
  observed r = Ok [Configure x; Request Local nm arg;
                   delivered_to s e (local env); Complete c] /\
  quiescent r = true.
Proof.
  intros U. destruct (unrecognised_predicates p U) as (U1 & U2 & U3 & U4 & U5).
  destruct env as [[v [[|]]|v [[|]]] re ca]; simpl local.
  all: settle_all.
  all: split; reflexivity.
Qed.

(** A policy value that is none of the five, a misspelt one for
    instance, makes every read a cache-only read: the local store is
    asked, its answer or error goes to the caller, and nothing else
    happens. *)
Theorem unrecognised_policy_reads_locally
    (coll p0 sub0 : value) (s0 e0 c0 : callback) (l : option settings)
    (a : api) (arg : value) (env : environment) (k : nat) :
  let i := store_with coll p0 sub0 s0 e0 c0 in
  is_read a = true ->
  recognised (effective_policy i l) = false ->
  observed (run_operation i l a arg env (3 + k))
  = Ok [ Configure (sub_options i l);
         Request Local (name a) arg;
         delivered_to (on_success s0 l) (on_error e0 l) (local env);
         Complete (on_complete c0 l) ] /\
  quiescent (run_operation i l a arg env (3 + k)) = true.
Proof.
  intros i R U. subst i. rewrite operation_staged. unfold body. rewrite R.
  edestruct plain_read_at as [O Q]; [exact U|].
  rewrite quiescent_fuel by exact Q. split; [exact O | exact Q].
Qed.

Lemma both_policies (p : value) :
  _shouldCallBoth p = true -> p = VStr CACHE_FIRST \/ p = VStr BOTH.
Proof.
  intros H. destruct (classify p) as [E|[E|[E|[E|[E|E]]]]]; subst; auto;
    try discriminate H.
  destruct (unrecognised_predicates p E) as (_ & U & _). congruence.
Qed.

(** Completion of a read that fell back on the network hangs on the
    [network] flag of the answer: under CacheFirst or Both, when the
    local read fails and the network store answers without flagging its
    answer as coming from the network, the caller gets the answer but
    the cache is not refreshed and completion never comes. *)
Theorem unflagged_network_answer_never_completes
    (coll p0 sub0 : value) (s0 e0 c0 : callback) (l : option settings)
    (a : api) (arg err fetched : value) (ie : info) :
  let i := store_with coll p0 sub0 s0 e0 c0 in
  is_read a = true ->
  _shouldCallBoth (effective_policy i l) = true ->
  let r := scenario i l a arg [Failed err ie; Succeeded fetched from_cache] in
  observed r
  = Ok [ Configure (sub_options i l);
         Request Local (name a) arg;
         Request Remote (name a) arg;
         Success (on_success s0 l) fetched from_cache ] /\
  quiescent r = true.
Proof.
  intros i R B. subst i. rewrite !scenario_staged.
  destruct (both_policies _ B) as [-> | ->];
    destruct a; try discriminate R; split; reflexivity.
Qed.

Lemma login_stage (coll p0 sub0 : value) (s0 e0 c0 : callback)
    (l : option settings) (k : ref -> M unit) :
  let i := store_with coll p0 sub0 s0 e0 c0 in
  (o <- argument l ;; o' <- _options o ;; k o') (world i) =
  k 0 (prepared i
         (filled (effective_policy i l)
                 (match l with Some l => s_store l | None => VUndefined end)
                 (on_success s0 l) (on_error e0 l) (on_complete c0 l))
         (sub_options i l)).
Proof.
  intros i.
  assert (H := options_stage coll p0 sub0 s0 e0 c0 l). simpl in H.
  fold i in H. unfold bind in *.
  destruct (argument l (world i)) as [[o s]|]; [|discriminate H].
  rewrite H. destruct l; reflexivity.
Qed.

Lemma bind_ext {A B : Type} (m : M A) (f g : A -> M B) :
  (forall a s, f a s = g a s) -> forall s, bind m f s = bind m g s.
Proof.
  intros H s. unfold bind. destruct (m s) as [[a s']|]; [apply H | reflexivity].
Qed.

Lemma pass_through_at (coll p0 sub0 : value) (s0 e0 c0 : callback)
    (l : option settings) (nm : string) (object : value) (out : outcome) :
  let i := store_with coll p0 sub0 s0 e0 c0 in
  let r := (o <- argument l ;;
            (o' <- _options o ;; call_store Remote nm object (Shared o')) ;;
            settle 0 out) (world i) in
  observed r
  = Ok [ Configure (sub_options i l);
         Request Remote nm object;
         delivered_to (on_success s0 l) (on_error e0 l) out ] /\
  quiescent r = true.
Proof.
  intros i r. subst r i.
  rewrite (bind_ext (argument l) _
             (fun o => o' <- _options o ;;
                       call_store Remote nm object (Shared o') ;;
                       settle 0 out)).
  - rewrite login_stage. destruct out; split; reflexivity.
  - intros o s. unfold bind. destruct (_options o s) as [[o' s']|]; reflexivity.
Qed.

(** login and logout go straight to the network store, whatever the
    policy: one request, the outcome handed to the caller's own success
    or error callback, no request to the local store, no cache write,
    and no completion from the cached store. *)
Theorem login_and_logout_bypass_the_cache
    (coll p0 sub0 : value) (s0 e0 c0 : callback) (l : option settings)
    (object : value) (out : outcome) :
  let i := store_with coll p0 sub0 s0 e0 c0 in
  let after (m : option ref -> M unit) :=
    (o <- argument l ;; m o ;; settle 0 out) (world i) in
  let events (nm : string) :=
    Ok [ Configure (sub_options i l);
         Request Remote nm object;
         delivered_to (on_success s0 l) (on_error e0 l) out ] in
  observed (after (login object)) = events "login" /\
  quiescent (after (login object)) = true /\
  observed (after (logout object)) = events "logout" /\
  quiescent (after (logout object)) = true.
Proof.
  intros i after events. subst after events i.
  destruct (pass_through_at coll p0 sub0 s0 e0 c0 l "login" object out)
    as [O1 Q1].
  destruct (pass_through_at coll p0 sub0 s0 e0 c0 l "logout" object out)
    as [O2 Q2].
  repeat split; assumption.
Qed.

(** ** [_options], [configure] and the constructor on any heap *)

(** [_options] works in place: it hands back the object it was given,
    changes no other object, allocates nothing, starts no call, and
    passes the store sub-options to the network store's [configure]
    exactly once, the call-site ones if there are any, the store's own
    otherwise. *)
Theorem options_touch_one_object (s : state) (r : ref) (before : object) :
  nth_error (heap s) r = Some before ->
  exists s',
    _options (Some r) s = Ok (r, s') /\
    this s' = this s /\ cells s' = cells s /\ pending s' = pending s /\
    trace s' = (trace s ++
                [Configure (if truthy (store before) then store before
                            else store (options (this s)))])%list /\
    length (heap s') = length (heap s) /\
    (forall r', r' <> r -> nth_error (heap s') r' = nth_error (heap s) r').
Proof.
  intros H.
  destruct (_options_at s r before H) as (s' & E & T & C & P & Tr & L & F & _).
  exists s'. repeat split; assumption.
Qed.

Lemma policy_or_twice (v d : value) :
  policy_or (policy_or v d) d = policy_or v d.
Proof.
  unfold policy_or. destruct (truthy v) eqn:T; [rewrite T; reflexivity|].
  destruct (truthy d); reflexivity.
Qed.

Lemma slot_or_twice {A : Type} (f d : option A) :
  slot_or (slot_or f d) d = slot_or f d.
Proof. destruct f, d; reflexivity. Qed.

(** Filling the options is idempotent: a second [_options] on the same
    object leaves the heap as the first one left it. *)
Theorem options_twice_is_once (s s1 : state) (r : ref) (before : object) :
  nth_error (heap s) r = Some before ->
  _options (Some r) s = Ok (r, s1) ->
  exists s2,
    _options (Some r) s1 = Ok (r, s2) /\
    heap s2 = heap s1 /\ this s2 = this s1.
Proof.
  intros H E1.
  destruct (_options_at s r before H) as (s1' & E1' & T1 & _ & _ & _ & _ & _ & A1).
  assert (s1' = s1) as -> by congruence.
  destruct (_options_at s1 r _ A1) as (s2 & E2 & T2 & _ & _ & _ & L2 & F2 & A2).
  exists s2. split; [exact E2|]. split; [|exact T2].
  apply nth_error_ext. intros n.
  destruct (Nat.eq_dec n r) as [-> | N]; [|apply F2, N].
  rewrite A2, A1. simpl. rewrite T1.
  rewrite policy_or_twice, !slot_or_twice. reflexivity.
Qed.

(** [configure] replaces exactly the options that are given, a policy or
    sub-options only if truthy, and keeps the others; it touches
    neither the heap nor the network store, which learns of new
    sub-options only with the next operation. *)
Theorem configure_overrides_what_is_given (s : state) (r : ref) (given : object) :
  nth_error (heap s) r = Some given ->
  exists s',
    configure r s = Ok (tt, s') /\
    heap s' = heap s /\ cells s' = cells s /\ pending s' = pending s /\
    trace s' = trace s /\
    collection (this s') = collection (this s) /\
    options (this s')
    = {| policy := policy_or (policy given) (policy (options (this s)));
         store := (if truthy (store given) then store given
                   else store (options (this s)));
         success := slot_or (success given) (success (options (this s)));
         error := slot_or (error given) (error (options (this s)));
         complete := slot_or (complete given) (complete (options (this s))) |}.
Proof.
  destruct s as [[coll [p0 sub0 fs0 fe0 fc0]] h cs pd tr].
  destruct given as [p sub fs fe fc]. simpl. intros H.
  cbv [configure bind read get set_options set_this ret heap this options
       collection policy store success error complete cells pending trace
       set_policy set_store set_success set_error set_complete
       policy_or slot_or].
  rewrite H.
  destruct (truthy p), (truthy sub), fs, fe, fc;
    eexists; repeat split; reflexivity.
Qed.

(** A store starts on the NetworkFirst policy; constructor options
    replace it only by a truthy policy of their own. *)
Theorem constructor_defaults_to_network_first
    (s : state) (coll : value) (opts : option ref) (given : object) :
  call_site s opts = Some given ->
  exists s',
    constructor coll opts s = Ok (tt, s') /\
    collection (this s') = coll /\
    policy (options (this s')) = policy_or (policy given) (VStr NETWORK_FIRST) /\
    heap s' = heap s /\ trace s' = trace s.
Proof.
  destruct s as [[coll0 [p0 sub0 fs0 fe0 fc0]] h cs pd tr].
  destruct given as [p sub fs fe fc]. destruct opts as [r|]; simpl; intros H.
  - cbv [constructor configure bind read get set_options set_this ret heap
         this options collection policy store success error complete cells
         pending trace set_policy set_store set_success set_error
         set_complete policy_or slot_or].
    rewrite H.
    destruct (truthy p), (truthy sub), fs, fe, fc;
      eexists; repeat split; reflexivity.
  - injection H as <- <- <- <- <-.
    eexists; repeat split; reflexivity.
Qed.

(** ** Passing the same options object twice *)

(** The options object is rewired by the read it is passed to, so a
    second read through the same object goes through the wrapper of
    the first: under every policy but Both, when both stores answer,
    the two reads together notify success only once, the first time,
    and complete three times. *)
Theorem reused_options_swallow_the_second_success
    (coll p0 sub0 : value) (s0 e0 c0 : callback) (g : settings)
    (a : api) (arg : value) (env : environment) :
  let i := store_with coll p0 sub0 s0 e0 c0 in
  is_read a = true ->
  truthful env ->
  succeeded (local env) = true ->
  succeeded (remote env) = true ->
  _shouldCallBothCallbacks (effective_policy i (Some g)) = false ->
  exists tr,
    observed (read_through_same_object g a arg env (world i)) = Ok tr /\
    quiescent (read_through_same_object g a arg env (world i)) = true /\
    successes tr = 1 /\ errors tr = 0 /\ completions tr = 3.
Proof.
  intros i R T L N B. subst i. unfold read_through_same_object.
  rewrite !(perform_read a arg R). generalize (name a) as nm. clear a R.
  intros nm. revert T L N. destruct env as [lo re ca].
  intros [Hl Hr]. simpl in Hl, Hr. simpl local; simpl remote.
  destruct lo as [v1 [n1]|v1 [n1]]; try discriminate; simpl in Hl; subst n1.
  destruct re as [v2 [n2]|v2 [n2]]; try discriminate; simpl in Hr; subst n2.
  intros _ _.
  assert (H := options_stage coll p0 sub0 s0 e0 c0 (Some g)).
  cbv beta zeta in H.
  cbv [bind argument alloc ret world heap this cells pending trace length app]
    in H.
  cbv [bind argument alloc ret world heap this cells pending trace length app].
  rewrite H. clear H.
  destruct g as [p sub s e c]. simpl effective_policy in *.
  unfold on_success, on_error, on_complete, sub_options. simpl s_store.
  simpl s_success. simpl s_error. simpl s_complete.
  generalize (or_default s s0) as s'. generalize (or_default e e0) as e'.
  generalize (or_default c c0) as c'. intros c' e' s'. clear s e c.
  destruct (truthy p) eqn:Tp.
  - with_rows p; try congruence.
    all: settle_all.
    all: eexists; repeat split; reflexivity.
  - destruct (truthy p0) eqn:Tp0.
    + with_rows p0; try congruence.
      all: settle_all.
      all: eexists; repeat split; reflexivity.
    + with_rows p0; try congruence.
      all: settle_all.
      all: eexists; repeat split; reflexivity.
Qed.

(** ** The further properties at work on the bookshop *)

Lemma honest_both_answer : truthful both_answer.
Proof. split; reflexivity. Defined.
Lemma honest_network_down : truthful network_down.
Proof. split; reflexivity. Defined.
Lemma honest_all_down : truthful all_down.
Proof. split; reflexivity. Defined.

Lemma writes_ask_the_network_only_witness :
  is_read Remove = false /\
  exists tr,
    observed (run_operation books (Some (asking CACHE_ONLY)) Remove saved
                network_saves 3) = Ok tr /\
    quiescent (run_operation books (Some (asking CACHE_ONLY)) Remove saved
                 network_saves 3) = true /\
    requests Remote tr = [Request Remote "remove" saved] /\
    requests Local tr = [].
Proof.
  split; [reflexivity|].
  exact (writes_ask_the_network_only (VStr "books") (VStr NETWORK_FIRST)
           (VObj []) Noop Noop Noop (Some (asking CACHE_ONLY)) saved
           network_saves 0 Remove eq_refl).
Defined.

Lemma removals_invalidate_the_cache_witness :
  (Remove = Remove \/ Remove = RemoveWithQuery) /\
  _shouldUpdateCache (effective_policy users None) = true /\
  remote network_saves = Succeeded saved from_network /\
  observed (run_operation users None Remove saved network_saves 3)
  = Ok [ Configure (VObj []);
         Request Remote "remove" saved;
         Success Noop saved from_network;
         Put "query" saved VNull;
         Complete Noop ].
Proof.
  split; [left; reflexivity|]. split; [reflexivity|]. split; [reflexivity|].
  exact (removals_invalidate_the_cache (VStr "user") (VStr NETWORK_FIRST)
           (VObj []) Noop Noop Noop None saved network_saves 0 Remove saved
           from_network (or_introl eq_refl) eq_refl eq_refl).
Defined.

Lemma failed_write_reports_and_completes_witness :
  is_read Save = false /\
  remote all_down = Failed (VStr "offline") from_network /\
  observed (run_operation books (Some (asking BOTH)) Save saved all_down 3)
  = Ok [ Configure (VObj []);
         Request Remote "save" saved;
         Error (App 2) (VStr "offline") from_network;
         Complete (App 3) ].
Proof.
  split; [reflexivity|]. split; [reflexivity|].
  exact (failed_write_reports_and_completes (VStr "books") (VStr NETWORK_FIRST)
           (VObj []) Noop Noop Noop (Some (asking BOTH)) saved all_down 0 Save
           (VStr "offline") from_network eq_refl eq_refl).
Defined.

Lemma no_cache_write_without_update_witness :
  truthful both_answer /\
  _shouldUpdateCache (effective_policy books (Some (asking NO_CACHE))) = false /\
  exists tr,
    observed (run_operation books (Some (asking NO_CACHE)) Query (VStr "b1")
                both_answer 3) = Ok tr /\
    puts tr = [].
Proof.
  split; [exact honest_both_answer|]. split; [reflexivity|].
  exact (no_cache_write_without_update (VStr "books") (VStr NETWORK_FIRST)
           (VObj []) Noop Noop Noop (Some (asking NO_CACHE)) (VStr "b1")
           both_answer 0 Query honest_both_answer eq_refl).
Defined.

Lemma save_of_nothing_skips_the_cache_witness :
  remote network_says_nothing = Succeeded VNull from_network /\
  not_nullish VNull = false /\
  observed (run_operation books (Some (asking CACHE_FIRST)) Save saved
              network_says_nothing 3)
  = Ok [ Configure (VObj []);
         Request Remote "save" saved;
         Success (App 1) VNull from_network;
         Complete (App 3) ].
Proof.
  split; [reflexivity|]. split; [reflexivity|].
  exact (save_of_nothing_skips_the_cache (VStr "books") (VStr NETWORK_FIRST)
           (VObj []) Noop Noop Noop (Some (asking CACHE_FIRST)) saved
           network_says_nothing 0 VNull from_network eq_refl eq_refl).
Defined.

Lemma read_asks_each_store_at_most_once_witness :
  is_read Query = true /\ truthful network_down /\
  exists tr,
    observed (run_operation books None Query (VStr "b1") network_down 3)
    = Ok tr /\
    all_requests tr
    = [Request Remote "query" (VStr "b1"); Request Local "query" (VStr "b1")].
Proof.
  split; [reflexivity|]. split; [exact honest_network_down|].
  exact (read_asks_each_store_at_most_once (VStr "books") (VStr NETWORK_FIRST)
           (VObj []) Noop Noop Noop None Query (VStr "b1") network_down 0
           eq_refl honest_network_down).
Defined.

Lemma read_caches_the_network_answer_witness :
  is_read Query = true /\ truthful both_answer /\
  exists tr,
    observed (run_operation books None Query (VStr "b1") both_answer 3)
    = Ok tr /\
    puts tr = [Put "query" (VStr "b1") (VStr "fetched")].
Proof.
  split; [reflexivity|]. split; [exact honest_both_answer|].
  exact (read_caches_the_network_answer (VStr "books") (VStr NETWORK_FIRST)
           (VObj []) Noop Noop Noop None Query (VStr "b1") both_answer 0
           eq_refl honest_both_answer).
Defined.

Lemma late_failure_is_silent_witness :
  is_read Query = true /\ truthful network_down /\
  _shouldCallBoth (effective_policy books (Some (asking BOTH))) = true /\
  local network_down = Succeeded (VStr "cached") from_cache /\
  remote network_down = Failed (VStr "offline") from_network /\
  observed (run_operation books (Some (asking BOTH)) Query (VStr "b1")
              network_down 3)
  = Ok [ Configure (VObj []);
         Request Local "query" (VStr "b1");
         Success (App 1) (VStr "cached") from_cache;
         Request Remote "query" (VStr "b1");
         Complete (App 3) ].
Proof.
  split; [reflexivity|]. split; [exact honest_network_down|].
  split; [reflexivity|]. split; [reflexivity|]. split; [reflexivity|].
  exact (late_failure_is_silent (VStr "books") (VStr NETWORK_FIRST)
           (VObj []) Noop Noop Noop (Some (asking BOTH)) Query (VStr "b1")
           network_down 0 eq_refl honest_network_down (VStr "cached")
           (VStr "offline") from_cache from_network eq_refl eq_refl eq_refl).
Defined.

Lemma fallback_reports_the_last_error_witness :
  is_read Query = true /\ truthful all_down /\
  _shouldCallFallback (effective_policy books None) = true /\
  observed (run_operation books None Query (VStr "b1") all_down 3)
  = Ok [ Configure (VObj []);
         Request Remote "query" (VStr "b1");
         Request Local "query" (VStr "b1");
         Error Noop (VStr "missing") from_cache;
         Complete Noop ].
Proof.
  split; [reflexivity|]. split; [exact honest_all_down|].
  split; [reflexivity|].
  exact (fallback_reports_the_last_error (VStr "books") (VStr NETWORK_FIRST)
           (VObj []) Noop Noop Noop None Query (VStr "b1") all_down 0
           eq_refl honest_all_down (VStr "offline") (VStr "missing")
           from_network from_cache eq_refl eq_refl eq_refl).
Defined.

Lemma cache_first_serves_local_then_refreshes_witness :
  is_read Query = true /\ truthful both_answer /\
  effective_policy books (Some (asking CACHE_FIRST)) = VStr CACHE_FIRST /\
  observed (run_operation books (Some (asking CACHE_FIRST)) Query (VStr "b1")
              both_answer 3)
  = Ok [ Configure (VObj []);
         Request Local "query" (VStr "b1");
         Success (App 1) (VStr "cached") from_cache;
         Request Remote "query" (VStr "b1");
         Put "query" (VStr "b1") (VStr "fetched");
         Complete (App 3) ].
Proof.
  split; [reflexivity|]. split; [exact honest_both_answer|].
  split; [reflexivity|].
  exact (cache_first_serves_local_then_refreshes (VStr "books")
           (VStr NETWORK_FIRST) (VObj []) Noop Noop Noop
           (Some (asking CACHE_FIRST)) Query (VStr "b1") both_answer 0
           eq_refl honest_both_answer (VStr "cached") (VStr "fetched")
           from_cache from_network eq_refl eq_refl eq_refl).
Defined.

Lemma unrecognised_policy_reads_locally_witness :
  is_read Query = true /\
  recognised (effective_policy books (Some typo)) = false /\
  observed (run_operation books (Some typo) Query (VStr "b1") both_answer 3)
  = Ok [ Configure (VObj []);
         Request Local "query" (VStr "b1");
         Success (App 1) (VStr "cached") from_cache;
         Complete (App 3) ].
Proof.
  split; [reflexivity|]. split; [reflexivity|].
  exact (proj1 (unrecognised_policy_reads_locally (VStr "books")
                  (VStr NETWORK_FIRST) (VObj []) Noop Noop Noop (Some typo)
                  Query (VStr "b1") both_answer 0 eq_refl eq_refl)).
Defined.

Lemma unflagged_network_answer_never_completes_witness :
  is_read Query = true /\
  _shouldCallBoth (effective_policy books (Some (asking CACHE_FIRST))) = true /\
  observed (scenario books (Some (asking CACHE_FIRST)) Query (VStr "b1")
              [Failed (VStr "missing") from_cache;
               Succeeded (VStr "fetched") from_cache])
  = Ok [ Configure (VObj []);
         Request Local "query" (VStr "b1");
         Request Remote "query" (VStr "b1");
         Success (App 1) (VStr "fetched") from_cache ] /\
  quiescent (scenario books (Some (asking CACHE_FIRST)) Query (VStr "b1")
               [Failed (VStr "missing") from_cache;
                Succeeded (VStr "fetched") from_cache]) = true.
Proof.
  split; [reflexivity|]. split; [reflexivity|].
  exact (unflagged_network_answer_never_completes (VStr "books")
           (VStr NETWORK_FIRST) (VObj []) Noop Noop Noop
           (Some (asking CACHE_FIRST)) Query (VStr "b1") (VStr "missing")
           (VStr "fetched") from_cache eq_refl eq_refl).
Defined.

Lemma options_touch_one_object_witness :
  nth_error (heap one_object) 0 = Some (literal (asking CACHE_FIRST)) /\
  exists s',
    _options (Some 0) one_object = Ok (0, s') /\
    this s' = books /\ cells s' = [] /\ pending s' = [] /\
    trace s' = [Configure (VObj [])] /\
    length (heap s') = 1 /\
    (forall r', r' <> 0 -> nth_error (heap s') r' = nth_error (heap one_object) r').
Proof.
  split; [reflexivity|].
  exact (options_touch_one_object one_object 0 _ eq_refl).
Defined.

Lemma options_twice_is_once_witness :
  nth_error (heap one_object) 0 = Some (literal (asking CACHE_FIRST)) /\
  exists s1,
    _options (Some 0) one_object = Ok (0, s1) /\
    exists s2,
      _options (Some 0) s1 = Ok (0, s2) /\ heap s2 = heap s1 /\ this s2 = this s1.
Proof.
  split; [reflexivity|].
  eexists. split; [reflexivity|].
  exact (options_twice_is_once one_object _ 0 _ eq_refl eq_refl).
Defined.

Lemma configure_overrides_what_is_given_witness :
  nth_error (heap one_object) 0 = Some (literal (asking CACHE_FIRST)) /\
  exists s',
    configure 0 one_object = Ok (tt, s') /\
    heap s' = heap one_object /\ cells s' = [] /\ pending s' = [] /\
    trace s' = [] /\
    collection (this s') = VStr "books" /\
    options (this s')
    = {| policy := VStr CACHE_FIRST; store := VObj [];
         success := Some (Caller (App 1)); error := Some (Caller (App 2));
         complete := Some (App 3) |}.
Proof.
  split; [reflexivity|].
  exact (configure_overrides_what_is_given one_object 0 _ eq_refl).
Defined.

Lemma constructor_defaults_to_network_first_witness :
  call_site boot None = Some empty_object /\
  exists s',
    constructor (VStr "books") None boot = Ok (tt, s') /\
    collection (this s') = VStr "books" /\
    policy (options (this s')) = VStr NETWORK_FIRST /\
    heap s' = [] /\ trace s' = [].
Proof.
  split; [reflexivity|].
  exact (constructor_defaults_to_network_first boot (VStr "books") None _
           eq_refl).
Defined.

Lemma books_configured : configured (options (this one_object)).
Proof. repeat split; discriminate. Defined.

(** The store's own options stay complete: the constructor leaves a
    truthy policy and the three callbacks in place, and no [configure]
    call can take any of them away. *)
Theorem store_options_stay_complete :
  (forall (s s' : state) (coll : value) (opts : option ref),
      success (options (this s)) <> None ->
      error (options (this s)) <> None ->
      complete (options (this s)) <> None ->
      constructor coll opts s = Ok (tt, s') ->
      configured (options (this s'))) /\
  (forall (s s' : state) (r : ref),
      configured (options (this s)) ->
      configure r s = Ok (tt, s') ->
      configured (options (this s'))).
Proof.
  split.
  - intros s s' coll opts. apply constructor_configures.
  - intros s s' r. apply configure_keeps_configured.
Qed.

Lemma store_options_stay_complete_witness :
  (success (options (this boot)) <> None /\
   error (options (this boot)) <> None /\
   complete (options (this boot)) <> None /\
   exists s',
     constructor (VStr "books") None boot = Ok (tt, s') /\
     configured (options (this s'))) /\
  (configured (options (this one_object)) /\
   exists s',
     configure 0 one_object = Ok (tt, s') /\ configured (options (this s'))).
Proof.
  assert (S : success (options (this boot)) <> None) by discriminate.
  assert (E : error (options (this boot)) <> None) by discriminate.
  assert (C : complete (options (this boot)) <> None) by discriminate.
  split.
  - split; [exact S|]. split; [exact E|]. split; [exact C|].
    eexists. split; [reflexivity|].
    exact (proj1 store_options_stay_complete boot _ (VStr "books") None
             S E C eq_refl).
  - split; [exact books_configured|].
    eexists. split; [reflexivity|].
    exact (proj2 store_options_stay_complete one_object _ 0 books_configured
             eq_refl).
Defined.

Lemma reused_options_swallow_the_second_success_witness :
  is_read Query = true /\ truthful both_answer /\
  succeeded (local both_answer) = true /\
  succeeded (remote both_answer) = true /\
  _shouldCallBothCallbacks
    (effective_policy books (Some (asking NETWORK_FIRST))) = false /\
  exists tr,
    observed (read_through_same_object (asking NETWORK_FIRST) Query (VStr "b1")
                both_answer (world books)) = Ok tr /\
    quiescent (read_through_same_object (asking NETWORK_FIRST) Query (VStr "b1")
                 both_answer (world books)) = true /\
    successes tr = 1 /\ errors tr = 0 /\ completions tr = 3.
Proof.
  split; [reflexivity|]. split; [exact honest_both_answer|].
  split; [reflexivity|]. split; [reflexivity|]. split; [reflexivity|].
  exact (reused_options_swallow_the_second_success (VStr "books")
           (VStr NETWORK_FIRST) (VObj []) Noop Noop Noop (asking NETWORK_FIRST)
           Query (VStr "b1") both_answer eq_refl honest_both_answer
           eq_refl eq_refl eq_refl).
Defined.

(** ** A second call through the options object of the first *)

(** C3.  The code breaks the claim when the options object has served
    an earlier read: the second read under Both, answered by the local
    store and then by the network, completes three times, once already
    before the network is asked, and writes the network response to the
    cache twice. *)
Lemma both_read_again_completes_three_times :
  observed (through_one_object (asking BOTH) Query Query (VStr "b1") (VStr "b1")
              [cached_answer; fetched_answer; cache_written]
              [cached_answer; fetched_answer; cache_written; cache_written]
              (world books))
  = Ok ([ Configure (VObj []);
          Request Local "query" (VStr "b1");
          Success (App 1) (VStr "cached") from_cache;
          Request Remote "query" (VStr "b1");
          Success (App 1) (VStr "fetched") from_network;
          Put "query" (VStr "b1") (VStr "fetched");
          Complete (App 3) ]
        ++
        [ Configure (VObj []);
          Request Local "query" (VStr "b1");
          Success (App 1) (VStr "cached") from_cache;
          Complete (App 3);
          Request Remote "query" (VStr "b1");
          Success (App 1) (VStr "fetched") from_network;
          Put "query" (VStr "b1") (VStr "fetched");
          Put "query" (VStr "b1") (VStr "fetched");
          Complete (App 3);
          Complete (App 3) ])%list /\
  quiescent (through_one_object (asking BOTH) Query Query (VStr "b1") (VStr "b1")
               [cached_answer; fetched_answer; cache_written]
               [cached_answer; fetched_answer; cache_written; cache_written]
               (world books)) = true.
Proof. split; vm_compute; reflexivity. Qed.

(** C4.  The code breaks the claim when the options object has served
    an earlier call.  A save on the "user" collection through the
    object of an earlier read runs that read's success wrapper, which
    writes the user record into the cache, and never calls the success
    callback.  A second save on another collection through the object
    of the first writes the response to the cache twice. *)
Lemma save_through_used_options_caches_the_user :
  observed (through_one_object (asking NETWORK_FIRST) Query Save (VStr "u1")
              saved [network_failure; cached_answer]
              [saved_answer; cache_written] (world users))
  = Ok ([ Configure (VObj []);
          Request Remote "query" (VStr "u1");
          Request Local "query" (VStr "u1");
          Success (App 1) (VStr "cached") from_cache;
          Complete (App 3) ]
        ++
        [ Configure (VObj []);
          Request Remote "save" saved;
          Put "query" (VStr "u1") saved;
          Complete (App 3);
          Complete (App 3) ])%list /\
  observed (through_one_object (asking CACHE_FIRST) Save Save saved saved
              [saved_answer; cache_written]
              [saved_answer; cache_written; cache_written] (world books))
  = Ok ([ Configure (VObj []);
          Request Remote "save" saved;
          Success (App 1) saved from_network;
          Put "query" (VStr "b1") saved;
          Complete (App 3) ]
        ++
        [ Configure (VObj []);
          Request Remote "save" saved;
          Success (App 1) saved from_network;
          Put "query" (VStr "b1") saved;
          Put "query" (VStr "b1") saved;
          Complete (App 3);
          Complete (App 3) ])%list.
Proof. split; vm_compute; reflexivity. Qed.

(** C5.  The code breaks the claim when the options object has served
    an earlier read: the second read under NetworkFirst, failed by the
    network and answered by the local store, never calls the success
    callback and completes twice. *)
Lemma network_first_again_loses_the_answer :
  observed (through_one_object (asking NETWORK_FIRST) Query Query (VStr "b1")
              (VStr "b1") [network_failure; cached_answer]
              [network_failure; cached_answer] (world books))
  = Ok ([ Configure (VObj []);
          Request Remote "query" (VStr "b1");
          Request Local "query" (VStr "b1");
          Success (App 1) (VStr "cached") from_cache;
          Complete (App 3) ]
        ++
        [ Configure (VObj []);
          Request Remote "query" (VStr "b1");
          Request Local "query" (VStr "b1");
          Complete (App 3);
          Complete (App 3) ])%list /\
  quiescent (through_one_object (asking NETWORK_FIRST) Query Query (VStr "b1")
               (VStr "b1") [network_failure; cached_answer]
               [network_failure; cached_answer] (world books)) = true.
Proof. split; vm_compute; reflexivity. Qed.

(** C10.  The code breaks the claim when the options object has served
    an earlier read: the second read under Both, failed by the local
    store and answered by the network, writes the network response to
    the cache twice and completes twice. *)
Lemma both_fallback_again_completes_twice :
  observed (through_one_object (asking BOTH) Query Query (VStr "b1") (VStr "b1")
              [cache_miss; fetched_answer; cache_written]
              [cache_miss; fetched_answer; cache_written; cache_written]
              (world books))
  = Ok ([ Configure (VObj []);
          Request Local "query" (VStr "b1");
          Request Remote "query" (VStr "b1");
          Success (App 1) (VStr "fetched") from_network;
          Put "query" (VStr "b1") (VStr "fetched");
          Complete (App 3) ]
        ++
        [ Configure (VObj []);
          Request Local "query" (VStr "b1");
          Request Remote "query" (VStr "b1");
          Success (App 1) (VStr "fetched") from_network;
          Put "query" (VStr "b1") (VStr "fetched");
          Put "query" (VStr "b1") (VStr "fetched");
          Complete (App 3);
          Complete (App 3) ])%list /\
  quiescent (through_one_object (asking BOTH) Query Query (VStr "b1") (VStr "b1")
               [cache_miss; fetched_answer; cache_written]
               [cache_miss; fetched_answer; cache_written; cache_written]
               (world books)) = true.
Proof. split; vm_compute; reflexivity. Qed.
